(** * Item characteristic curves and their slider binding (script.js)

    The script has two parts.  The _curve model_ is five closed-form
    functions ([logistic], [icc1PL] ... [icc4PL]) and a grid of 400 abilities
    ([thetaGrid]).  The _reactive binding_ ([setupModel]) creates one range
    control per parameter, keeps the ability and difficulty controls in step
    when the lock is checked, and on every change recomputes the sampled curve
    and the highlighted point and pushes them into the chart.

    Numbers.  A JavaScript number is a binary64 value; the specification
    speaks of real numbers throughout.  The development therefore reads the
    arithmetic of the script twice:

    - over [R] (top level): [+ - * /] are the real operations, [Math.exp] is
      [exp], [Math.max] and [Math.min] are [Rmax] and [Rmin].  Every property
      quantified over all abilities and parameters is stated here, and the
      binding is modelled here.
    - over binary64 ([Module Binary64], on the kernel's primitive floats):
      [+ - * /] round to nearest-even as IEEE 754 and ECMAScript prescribe.
      [Math.exp] is implementation-approximated in ECMAScript, which fixes its
      result only at NaN, at the two zeros and at the two infinities; the
      binary64 reading takes the implementation as a parameter and is used
      for what holds whatever the implementation: the grid, the values of the
      curve functions where the exponent is zero, and the identities between
      the curve functions, and the saturation of [logistic], which no
      implementation avoids.  The bounds of the curves are stated over the
      reals; the computed values can leave them by a rounding error. *)

From Stdlib Require Import Reals Lra Lia ZArith QArith Qabs Floats Sorted.
From stdpp Require Import gmap strings list.

Set Warnings "-inexact-float".

(** ** Curve model over the reals *)

Local Open Scope R_scope.

(** [function logistic(x) { return 1.0 / (1.0 + Math.exp(-x)); }] *)
Definition logistic (x : R) : R := 1 / (1 + exp (- x)).

(** [function icc1PL(theta, b) { return logistic(theta - b); }] *)
Definition icc1PL (theta b : R) : R := logistic (theta - b).

(** [function icc2PL(theta, a, b) { return logistic(a * (theta - b)); }] *)
Definition icc2PL (theta a b : R) : R := logistic (a * (theta - b)).

(** [function icc3PL(theta, a, b, c)
      { return c + (1.0 - c) * logistic(a * (theta - b)); }] *)
Definition icc3PL (theta a b c : R) : R :=
  c + (1 - c) * logistic (a * (theta - b)).

(** [function icc4PL(theta, a, b, c, d)
      { return c + (d - c) * logistic(a * (theta - b)); }] *)
Definition icc4PL (theta a b c d : R) : R :=
  c + (d - c) * logistic (a * (theta - b)).

(** [Array.from({ length: n }, (_, i) => f(i))]: the array
    [f(0), ..., f(n-1)]. *)
Definition Array_from {A : Type} (n : nat) (f : nat -> A) : list A :=
  f <$> seq 0 n.

(** The guarded initialisation of the shared grid:
    [if (!window.thetaGrid)
       window.thetaGrid = Array.from({ length: 400 }, (_, i) => -4 + (i * 8 / 399));]
    The argument is the property as the script finds it: [None] when it is
    undefined, [Some g] when an array is already there (an array is truthy,
    so it is kept). *)
Definition init_thetaGrid (found : option (list R)) : list R :=
  match found with
  | Some g => g
  | None => Array_from 400 (fun i => -4 + (INR i * 8 / 399))
  end.

(** [window.thetaGrid] once the script has run on a page that did not define
    it before. *)
Definition thetaGrid : list R := init_thetaGrid None.

Arguments thetaGrid : simpl never.

(** The differences between consecutive elements of a sequence. *)
Fixpoint gaps (l : list R) : list R :=
  match l with
  | x :: (y :: _) as tl => (y - x) :: gaps tl
  | _ => []
  end.

(** ** The formulas as the specification words them

    Section 4.1 writes the logistic function with a power of Euler's number,
    [1 / (1 + e^-x)], and each curve as an expression over it. *)

Module Reference.

Definition e : R := exp 1.

Definition logistic (x : R) : R := 1 / (1 + Rpower e (- x)).

End Reference.

(** ** Curve model over binary64

    The same five functions and the grid with the arithmetic of the
    language.  ECMAScript fixes [Math.exp] at five arguments (NaN at NaN, 1
    at [+0] and [-0], [+0] at negative infinity, positive infinity at
    positive infinity) and leaves it to the implementation elsewhere; [impl]
    stands for what the engine at hand computes there. *)

Module Binary64.

Local Open Scope float_scope.

Section implementation.

Variable impl : float -> float.

Definition Math_exp (x : float) : float :=
  if is_nan x then nan
  else if is_zero x then 1
  else if is_infinity x then (if get_sign x then 0 else infinity)
  else impl x.

Definition logistic (x : float) : float := 1.0 / (1.0 + Math_exp (- x)).

Definition icc1PL (theta b : float) : float := logistic (theta - b).

Definition icc2PL (theta a b : float) : float := logistic (a * (theta - b)).

Definition icc3PL (theta a b c : float) : float :=
  c + (1.0 - c) * logistic (a * (theta - b)).

Definition icc4PL (theta a b c d : float) : float :=
  c + (d - c) * logistic (a * (theta - b)).

End implementation.

(** [Math.max] of two numbers: NaN when either is NaN, and [+0] is larger
    than [-0]. *)
Definition Math_max (x y : float) : float :=
  if is_nan x || is_nan y then nan
  else if x <? y then y
  else if y <? x then x
  else if get_sign x then y else x.

(** Equality of two numbers as [SameValueZero] of ECMAScript has it: [==]
    on numbers (which takes [+0] and [-0] for equal), and NaN equal to
    NaN. *)
Definition SameValueZero (x y : float) : bool :=
  (is_nan x && is_nan y) || (x =? y).

(** The double [2^52 + k], for [0 <= k < 2^52]: the integers of the binade
    from [2^52] to [2^53]. *)
Definition big (k : Z) : float :=
  SF2Prim (S754_finite false (Z.to_pos (2 ^ 52 + k)) 0).

(** The array index [i] as a number. *)
Definition of_index (i : nat) : float :=
  PrimFloat.of_uint63 (Uint63.of_Z (Z.of_nat i)).

Definition thetaGrid : list float :=
  Array_from 400 (fun i => -4 + (of_index i * 8 / 399)).

(** The effective upper asymptote of the 4PL callbacks,
    [Math.max(v.d4PL, v.c4PL + 1e-6)]. *)
Definition clamp_d (c d : float) : float := Math_max d (c + 1e-6).

(** The rational number a finite binary64 value denotes. *)
Definition exact (x : float) : option Q :=
  match Prim2SF x with
  | S754_zero _ => Some 0%Q
  | S754_finite s m ex =>
      Some ((if s then -1 else 1) * inject_Z (Zpos m) * (2 # 1) ^ ex)%Q
  | _ => None
  end.

(** [true] when [x] is finite and at most [eps] away from [q]. *)
Definition within (eps q : Q) (x : float) : bool :=
  match exact x with
  | Some v => Qle_bool (Qabs (v - q)) eps
  | None => false
  end.

(** Consecutive elements are in strictly increasing order. *)
Fixpoint increasing (l : list float) : bool :=
  match l with
  | x :: (y :: _) as tl => (x <? y) && increasing tl
  | _ => true
  end.

(** The exact difference between the elements at positions [i] and [i + 1],
    in lowest terms. *)
Definition exact_gap (l : list float) (i : nat) : option Q :=
  match exact (nth i l 0), exact (nth (S i) l 0) with
  | Some a, Some b => Some (Qred (b - a))
  | _, _ => None
  end.

End Binary64.

(** ** Reactive binding

    What the binding keeps of the page: per parameter the range control
    created by [createSlider] (its [input] element and the [valueSpan] beside
    it), the lock checkbox when there is one, and the chart.  The attributes
    of an [input] element are strings, written with [String(n)] and read with
    [parseFloat]; reading gives back the number written, and the model keeps
    the number.  A range control keeps a value that is written to it when the
    value lies in its range and on its step grid, and replaces any other
    value by the nearest one that does; the model keeps what is written.  On
    the four pages of the script every default and every value that the
    script writes is one that the control keeps ([kept] below).  The labels
    and wrappers are decoration and are left out. *)

(** One entry of [params]. *)
Record param := mkParam {
  id : string;
  label : string;
  min : R;
  max : R;
  step : R;
  defaultValue : R }.

(** The object [{ wrapper, input, valueSpan }] of [createSlider]. *)
Record slider := mkSlider {
  input_id : string;
  input_min : R;
  input_max : R;
  input_step : R;
  input_value : R;
  valueSpan_textContent : R }.

(** [{ x, y }], the highlighted point. *)
Record point := mkPoint { point_x : R; point_y : R }.

(** The chart: the y data of trace 0 (the curve), the single point of
    trace 1 (the marker) and the two ends of the vertical line
    [shapes[0]]. *)
Record figure := mkFigure {
  line_y : list R;
  marker : point;
  shape_x0 : R;
  shape_x1 : R }.

(** The argument of [setupModel]. A callback answers [None] when it reads a
    key that the value map does not have: the script would go on with
    [undefined], which is no real number. *)
Record family := mkFamily {
  containerId : string;
  slidersId : string;
  title : string;
  params : list param;
  computeCurve : gmap string R -> option (list R);
  computePoint : gmap string R -> option point }.

(** The state of one [setupModel] instance. [lockCheckbox] is [None] when the
    checkbox was not created, otherwise its [checked] flag. *)
Record model := mkModel {
  sliderObjs : list slider;
  lockCheckbox : option bool;
  plot : figure }.

(** [createFigure]: a curve of zeros over the grid, the marker at the
    origin, the vertical line at 0. *)
Definition createFigure : figure :=
  let xGrid := thetaGrid in
  mkFigure ((fun _ => 0) <$> xGrid) (mkPoint 0 0) 0 0.

(** [createSlider(p.id, p.label, p.min, p.max, p.step, p.defaultValue, update)];
    the listener it registers is the first entry of [inputListeners] below. *)
Definition createSlider (p : param) : slider :=
  mkSlider (id p) (min p) (max p) (step p) (defaultValue p) (defaultValue p).

(** [input.value = String(v)] *)
Definition set_value (v : R) (s : slider) : slider :=
  mkSlider (input_id s) (input_min s) (input_max s) (input_step s)
           v (valueSpan_textContent s).

(** [valueSpan.textContent = String(t)] *)
Definition set_textContent (t : R) (s : slider) : slider :=
  mkSlider (input_id s) (input_min s) (input_max s) (input_step s)
           (input_value s) t.

(** Handlers run one after the other on the state; the first failure ends the
    run. *)
Fixpoint run (hs : list (model -> option model)) (m : model) : option model :=
  match hs with
  | [] => Some m
  | h :: hs' => match h m with Some m' => run hs' m' | None => None end
  end.

(** A listener added with [addEventListener('input', handle, { capture })]. *)
Record listener := mkListener {
  capture : bool;
  handle : model -> option model }.

(** The order in which the listeners of the event's own target are invoked.
    The DOM Standard dispatches in two passes over the event path, and the
    target takes part in both: its listeners added with [capture: true] are
    invoked in the capturing pass, the others in the bubbling pass, each
    group in the order of registration.  An [input] element has no
    descendants, so every [input] event of a control has the control as its
    target. *)
Definition dispatch_order (ls : list listener) : list listener :=
  filter (fun l => capture l = true) ls ++ filter (fun l => capture l = false) ls.

Definition dispatchEvent (ls : list listener) (m : model) : option model :=
  run (handle <$> dispatch_order ls) m.

(** What the browser does to the page before it dispatches an event. *)
Inductive event :=
| Input (k : nat) (v : R)       (* control [k] is moved to [v] *)
| Change (checked : bool).      (* the lock checkbox is set to [checked] *)

(** [values[key] = x] on a plain object: the object gets an entry of its own
    under [key], replacing an earlier one.  The one key for which it does not
    is [__proto__]: the assignment goes to the setter that [Object.prototype]
    has for that key, which ignores a number, and the object is left as it
    is. *)
Definition assign (key : string) (x : R) (values : gmap string R) : gmap string R :=
  if decide (key = "__proto__") then values else <[key := x]> values.

(** *** [setupModel]

    The closures of one call of [setupModel], with its argument as the
    section variable. *)

Section setupModel.

Variable fam : family.

(** [thetaSlider] and [bSlider]: [sliderObjs.find] gives the first control
    whose identifier starts with [theta], and the first whose identifier
    starts with [b]; the object found is named by its position in
    [sliderObjs].  The identifiers never change, so the search is made on the
    controls as created. *)
Definition thetaSlider : option nat :=
  fst <$> list_find (fun s => String.prefix "theta" (input_id s) = true)
                    (createSlider <$> params fam).

Definition bSlider : option nat :=
  fst <$> list_find (fun s => String.prefix "b" (input_id s) = true)
                    (createSlider <$> params fam).

(** [getValues]: one assignment [values[s.input.id] = parseFloat(s.input.value)]
    per control, in order. *)
Definition getValues (m : model) : gmap string R :=
  foldl (fun values s => assign (input_id s) (input_value s) values) ∅ (sliderObjs m).

(** [update]: read the values, compute the curve and the point, and push
    them and the position of the vertical line into the chart. *)
Definition update (m : model) : option model :=
  let v := getValues m in
  curveY ← computeCurve fam v;
  pt ← computePoint fam v;
  Some (mkModel (sliderObjs m) (lockCheckbox m)
                (mkFigure curveY pt (point_x pt) (point_x pt))).

(** [onThetaCapture], for the controls at positions [ti] (ability) and [bi]
    (difficulty): with the lock checked, the ability clamped to the range of
    the difficulty control is written into that control and its span, unless
    the control holds it already. *)
Definition onThetaCapture (ti bi : nat) (m : model) : model :=
  match lockCheckbox m with
  | Some true =>
      match sliderObjs m !! ti, sliderObjs m !! bi with
      | Some thetaS, Some bS =>
          let t := input_value thetaS in
          let bmin := input_min bS in
          let bmax := input_max bS in
          let nb := Rmax bmin (Rmin bmax t) in
          if Req_dec_T (input_value bS) nb then m
          else mkModel (<[bi := set_textContent nb (set_value nb bS)]> (sliderObjs m))
                       (lockCheckbox m) (plot m)
      | _, _ => m
      end
  | _ => m
  end.

(** [onBCapture]: the same from the difficulty to the ability. *)
Definition onBCapture (ti bi : nat) (m : model) : model :=
  match lockCheckbox m with
  | Some true =>
      match sliderObjs m !! ti, sliderObjs m !! bi with
      | Some thetaS, Some bS =>
          let b := input_value bS in
          let tmin := input_min thetaS in
          let tmax := input_max thetaS in
          let nt := Rmax tmin (Rmin tmax b) in
          if Req_dec_T (input_value thetaS) nt then m
          else mkModel (<[ti := set_textContent nt (set_value nt thetaS)]> (sliderObjs m))
                       (lockCheckbox m) (plot m)
      | _, _ => m
      end
  | _ => m
  end.

(** The listener of [createSlider] on control [k]:
    [valueSpan.textContent = input.value; onChange();] with [update] as
    [onChange]. *)
Definition onInput (k : nat) (m : model) : option model :=
  update (mkModel (alter (fun s => set_textContent (input_value s) s) k (sliderObjs m))
                  (lockCheckbox m) (plot m)).

(** The [input] listeners of control [k] in the order of their registration:
    the one of [createSlider], and then, when both an ability and a
    difficulty control exist, the capturing one that [setupModel] adds to the
    ability control and to the difficulty control. *)
Definition inputListeners (k : nat) : list listener :=
  mkListener false (onInput k)
  :: match thetaSlider, bSlider with
     | Some ti, Some bi =>
         (if Nat.eqb k ti
          then [mkListener true (fun m => Some (onThetaCapture ti bi m))] else [])
         ++ (if Nat.eqb k bi
             then [mkListener true (fun m => Some (onBCapture ti bi m))] else [])
     | _, _ => []
     end.

(** The [change] listener of the checkbox:
    [if (lockCheckbox.checked) { onThetaCapture(); update(); }] *)
Definition onLockChange (m : model) : option model :=
  match lockCheckbox m, thetaSlider, bSlider with
  | Some true, Some ti, Some bi => update (onThetaCapture ti bi m)
  | _, _, _ => Some m
  end.

(** One event: the browser changes the control, then the listeners run. An
    event on a control that does not exist is no event. *)
Definition on_event (ev : event) (m : model) : option model :=
  match ev with
  | Input k v =>
      match sliderObjs m !! k with
      | Some _ =>
          dispatchEvent (inputListeners k)
            (mkModel (alter (set_value v) k (sliderObjs m)) (lockCheckbox m) (plot m))
      | None => None
      end
  | Change checked =>
      match lockCheckbox m with
      | Some _ => onLockChange (mkModel (sliderObjs m) (Some checked) (plot m))
      | None => None
      end
  end.

(** The body of [setupModel]: the figure, the controls, the unchecked lock
    checkbox when both an ability and a difficulty control exist, and the
    initial [update]. *)
Definition setupModel : option model :=
  let sliders := createSlider <$> params fam in
  let lock := match thetaSlider, bSlider with
              | Some _, Some _ => Some false
              | _, _ => None
              end in
  update (mkModel sliders lock createFigure).

(** The states of the instance: after [setupModel], and after each event. *)
Inductive reachable : model -> Prop :=
| reach_setup m : setupModel = Some m -> reachable m
| reach_step m ev m' : reachable m -> on_event ev m = Some m' -> reachable m'.

(** The same listeners invoked in the order of their registration, whatever
    their [capture] flag: what the dispatch would be if the flag did not
    count. *)
Definition step_in_registration_order (k : nat) (v : R) (m : model) : option model :=
  run (handle <$> inputListeners k)
      (mkModel (alter (set_value v) k (sliderObjs m)) (lockCheckbox m) (plot m)).

End setupModel.

(** *** The four calls of [setupModel] *)

(** 1PL: controls for the ability and the difficulty. *)
Definition fam1PL : family :=
  mkFamily "plot1PL" "sliders1PL" "1PL (Rasch)"
    [ mkParam "theta1PL" "θ (ability)" (-4) 4 0.1 0;
      mkParam "b1PL" "b (difficulty)" (-3) 3 0.1 0 ]
    (fun v => b ← v !! "b1PL";
              Some ((fun t => icc1PL t b) <$> thetaGrid))
    (fun v => theta ← v !! "theta1PL"; b ← v !! "b1PL";
              Some (mkPoint theta (icc1PL theta b))).

(** 2PL: ability, discrimination, difficulty. *)
Definition fam2PL : family :=
  mkFamily "plot2PL" "sliders2PL" "2PL"
    [ mkParam "theta2PL" "θ (ability)" (-4) 4 0.1 0;
      mkParam "a2PL" "a (discrimination)" 0.1 3 0.05 1;
      mkParam "b2PL" "b (difficulty)" (-3) 3 0.1 0 ]
    (fun v => a ← v !! "a2PL"; b ← v !! "b2PL";
              Some ((fun t => icc2PL t a b) <$> thetaGrid))
    (fun v => theta ← v !! "theta2PL"; a ← v !! "a2PL"; b ← v !! "b2PL";
              Some (mkPoint theta (icc2PL theta a b))).

(** 3PL: ability, discrimination, difficulty, guessing floor. *)
Definition fam3PL : family :=
  mkFamily "plot3PL" "sliders3PL" "3PL"
    [ mkParam "theta3PL" "θ (ability)" (-4) 4 0.1 0;
      mkParam "a3PL" "a (discrimination)" 0.1 3 0.05 1;
      mkParam "b3PL" "b (difficulty)" (-3) 3 0.1 0;
      mkParam "c3PL" "c (guessing)" 0 0.35 0.01 0.2 ]
    (fun v => a ← v !! "a3PL"; b ← v !! "b3PL"; c ← v !! "c3PL";
              Some ((fun t => icc3PL t a b c) <$> thetaGrid))
    (fun v => theta ← v !! "theta3PL"; a ← v !! "a3PL"; b ← v !! "b3PL";
              c ← v !! "c3PL";
              Some (mkPoint theta (icc3PL theta a b c))).

(** 4PL: ability, discrimination, difficulty, guessing floor, upper
    asymptote; both callbacks first raise the upper asymptote to at least
    [c + 1e-6]. *)
Definition fam4PL : family :=
  mkFamily "plot4PL" "sliders4PL" "4PL"
    [ mkParam "theta4PL" "θ (ability)" (-4) 4 0.1 0;
      mkParam "a4PL" "a (discrimination)" 0.1 3 0.05 1;
      mkParam "b4PL" "b (difficulty)" (-3) 3 0.1 0;
      mkParam "c4PL" "c (guessing)" 0 0.35 0.01 0.2;
      mkParam "d4PL" "d (upper asymptote)" 0.65 1 0.01 0.9 ]
    (fun v => d4 ← v !! "d4PL"; c ← v !! "c4PL";
              let d := Rmax d4 (c + 1e-6) in
              a ← v !! "a4PL"; b ← v !! "b4PL";
              Some ((fun t => icc4PL t a b c d) <$> thetaGrid))
    (fun v => d4 ← v !! "d4PL"; c ← v !! "c4PL";
              let d := Rmax d4 (c + 1e-6) in
              theta ← v !! "theta4PL"; a ← v !! "a4PL"; b ← v !! "b4PL";
              Some (mkPoint theta (icc4PL theta a b c d))).

Definition families : list family := [fam1PL; fam2PL; fam3PL; fam4PL].

(** What a control keeps from its creation: identifier, range and step. *)
Definition attributes (s : slider) : string * R * R * R :=
  (input_id s, input_min s, input_max s, input_step s).

(** A state of family [fam]: its controls are the ones created from the
    parameters of the family, each holding any value. *)
Definition family_state (fam : family) (m : model) : Prop :=
  attributes <$> sliderObjs m = attributes <$> (createSlider <$> params fam).

(** [Math.max(lo, Math.min(hi, v))] *)
Definition clamp (lo hi v : R) : R := Rmax lo (Rmin hi v).

(** [parseFloat(sliderObjs[k].input.value)] *)
Definition value_at (m : model) (k : nat) : option R :=
  input_value <$> sliderObjs m !! k.

(** ** The events of a browser

    A range control only ever holds a value of its range: the browser
    delivers an [input] event for a control with a value between the [min]
    and the [max] of that control. *)
Definition browser_event (m : model) (ev : event) : Prop :=
  match ev with
  | Input k v =>
      exists s, sliderObjs m !! k = Some s /\ input_min s <= v <= input_max s
  | Change _ => True
  end.

(** The states a page goes through in a browser. *)
Inductive visited (fam : family) : model -> Prop :=
| visit_setup m : setupModel fam = Some m -> visited fam m
| visit_step m ev m' :
    visited fam m -> browser_event m ev -> on_event fam ev m = Some m' ->
    visited fam m'.

(** A value that a range control keeps as it is written: within the range
    of the control and on its step grid, which starts at the minimum. *)
Definition kept (s : slider) (v : R) : Prop :=
  input_min s <= v <= input_max s
  /\ exists k : Z, v = input_min s + IZR k * input_step s.

(** An [input] event as a browser delivers it: the control is moved to a
    value that it keeps. *)
Definition stepped_event (m : model) (ev : event) : Prop :=
  match ev with
  | Input k v => exists s, sliderObjs m !! k = Some s /\ kept s v
  | Change _ => True
  end.

(** The states a page goes through by such events. *)
Inductive browsed (fam : family) : model -> Prop :=
| browse_setup m : setupModel fam = Some m -> browsed fam m
| browse_step m ev m' :
    browsed fam m -> stepped_event m ev -> on_event fam ev m = Some m' ->
    browsed fam m'.

(** ** The formulas of the page

    The [DOMContentLoaded] listener writes the formula of each family into
    the element of the page that is set aside for it.  An element shows
    plain text or a formula typeset by KaTeX from its TeX source; the page is
    the map from the identifiers of its elements to what they show. *)
Inductive content :=
| Text (s : string)
| Typeset (tex : string).

(** [render(elId, tex)]:
    [const el = document.getElementById(elId);
     if (el && window.katex) window.katex.render(tex, el, ...);
     else if (el) el.textContent = tex;]
    with [katex] telling whether [window.katex] is there. *)
Definition render (katex : bool) (elId tex : string) (page : gmap string content)
    : gmap string content :=
  let el := page !! elId in
  if bool_decide (is_Some el) && katex then <[elId := Typeset tex]> page
  else if bool_decide (is_Some el) then <[elId := Text tex]> page
  else page.

(** The listener: the four formulas, in the order of the script. *)
Definition renderEquations (katex : bool) (page : gmap string content)
    : gmap string content :=
  let page := render katex "eq1PL" "P(\theta)=\tfrac{1}{1+e^{-(\theta-b)}}" page in
  let page := render katex "eq2PL" "P(\theta)=\tfrac{1}{1+e^{-a(\theta-b)}}" page in
  let page := render katex "eq3PL"
                "P(\theta)=c + (1-c)\,\tfrac{1}{1+e^{-a(\theta-b)}}" page in
  render katex "eq4PL" "P(\theta)=c + (d-c)\,\tfrac{1}{1+e^{-a(\theta-b)}}" page.

(** * Properties *)

(** ** The logistic function *)

Lemma exp_opp_pos (x : R) : 0 < 1 + exp (- x).
Proof. pose proof (exp_pos (- x)). lra. Qed.

Lemma logistic_pos (x : R) : 0 < logistic x.
Proof.
  unfold logistic. apply Rdiv_lt_0_compat; [lra | apply exp_opp_pos].
Qed.

Lemma logistic_lt_1 (x : R) : logistic x < 1.
Proof.
  unfold logistic. pose proof (exp_pos (- x)) as He.
  apply Rmult_lt_reg_r with (1 + exp (- x)); [lra |].
  unfold Rdiv. rewrite Rmult_assoc, Rinv_l; lra.
Qed.

Lemma logistic_0 : logistic 0 = 1 / 2.
Proof. unfold logistic. rewrite Ropp_0, exp_0. lra. Qed.

Lemma logistic_increasing (x y : R) : x < y -> logistic x < logistic y.
Proof.
  intros Hxy. unfold logistic, Rdiv. rewrite !Rmult_1_l.
  apply Rinv_lt_contravar.
  - apply Rmult_lt_0_compat; apply exp_opp_pos.
  - apply Rplus_lt_compat_l, exp_increasing. lra.
Qed.

(** The power of Euler's number in the specification is the exponential of
    the script. *)
Lemma e_power (x : R) : Rpower Reference.e x = exp x.
Proof.
  unfold Rpower, Reference.e. now rewrite ln_exp, Rmult_1_r.
Qed.

Lemma logistic_reference (x : R) : logistic x = Reference.logistic x.
Proof. unfold logistic, Reference.logistic. now rewrite e_power. Qed.

(** *** Bounds on [exp (-1)] from its alternating series *)

Section exp_minus_one.

Let Un (i : nat) : R := / INR (fact i).

Lemma inv_fact_decreasing : Un_decreasing Un.
Proof.
  intros n. unfold Un. apply Rinv_le_contravar.
  - apply INR_fact_lt_0.
  - apply le_INR, fact_le. lia.
Qed.

Lemma inv_fact_cv_0 : Un_cv Un 0.
Proof.
  apply Un_cv_ext with (un := fun n => 1 ^ n / INR (fact n)).
  - intros n. unfold Un, Rdiv. now rewrite pow1, Rmult_1_l.
  - apply cv_speed_pow_fact.
Qed.

Lemma alt_inv_fact_cv : Un_cv (fun N => sum_f_R0 (tg_alt Un) N) (exp (-1)).
Proof.
  assert (H : exp_in (-1) (exp (-1))) by (unfold exp; apply proj2_sig).
  intros eps Heps. destruct (H eps Heps) as [N HN].
  exists N. intros n Hn.
  rewrite (sum_eq (tg_alt Un) (fun i => / INR (fact i) * (-1) ^ i)).
  - now apply HN.
  - intros i _. unfold tg_alt, Un. apply Rmult_comm.
Qed.

Lemma exp_m1_between (N : nat) :
  sum_f_R0 (tg_alt Un) (S (2 * N)) <= exp (-1) <= sum_f_R0 (tg_alt Un) (2 * N).
Proof.
  apply alternated_series_ineq.
  - exact inv_fact_decreasing.
  - exact inv_fact_cv_0.
  - exact alt_inv_fact_cv.
Qed.

Lemma INR_fact_S (n : nat) : INR (fact (S n)) = INR (S n) * INR (fact n).
Proof. rewrite fact_simpl. apply mult_INR. Qed.

Lemma exp_m1_bounds : 16687 / 45360 <= exp (-1) <= 2119 / 5760.
Proof.
  split.
  - eapply Rle_trans; [| apply (proj1 (exp_m1_between 4))].
    cbv [Nat.mul Nat.add sum_f_R0 tg_alt Un].
    rewrite !INR_fact_S. simpl fact. rewrite !S_INR. simpl INR. lra.
  - eapply Rle_trans; [apply (proj2 (exp_m1_between 4)) |].
    cbv [Nat.mul Nat.add sum_f_R0 tg_alt Un].
    rewrite !INR_fact_S. simpl fact. rewrite !S_INR. simpl INR. lra.
Qed.

End exp_minus_one.

Lemma exp_m2_bounds : 0.135335 < exp (-2) < 0.13534.
Proof.
  replace (-2) with (-1 + -1) by lra. rewrite exp_plus.
  pose proof exp_m1_bounds as [Hl Hu]. nra.
Qed.

Lemma logistic_2_bounds : 0.88079 < logistic 2 < 0.8808.
Proof.
  unfold logistic. pose proof exp_m2_bounds as [Hl Hu].
  set (E := exp (-2)) in *.
  assert (HE : 0 < 1 + E) by lra.
  split.
  - apply Rmult_lt_reg_r with (1 + E); [exact HE |].
    unfold Rdiv. rewrite Rmult_assoc, Rinv_l; lra.
  - apply Rmult_lt_reg_r with (1 + E); [exact HE |].
    unfold Rdiv. rewrite Rmult_assoc, Rinv_l; lra.
Qed.

(** ** Two identities of binary64 arithmetic

    Multiplication by 1 is exact, and adding [+0] changes nothing but the
    sign of a negative zero.  Both are read off the specification of the
    operations ([SpecFloat]): the product of the mantissa of 1, [2^52], with
    a mantissa [m] is [m] shifted by 52 bits, which the rounding shifts
    back. *)

Lemma digits2_pos_shift (m : positive) :
  Z.pos (SpecFloat.digits2_pos (4503599627370496 * m))
  = (Z.pos (SpecFloat.digits2_pos m) + 52)%Z.
Proof.
  change (4503599627370496 * m)%positive with (Pos.iter xO m 52).
  cbn [Pos.iter SpecFloat.digits2_pos]. lia.
Qed.

Lemma shr_shift (m : positive) :
  SpecFloat.iter_pos SpecFloat.shr_1 52
    (SpecFloat.Build_shr_record (Z.pos (4503599627370496 * m)) false false)
  = SpecFloat.Build_shr_record (Z.pos m) false false.
Proof. reflexivity. Qed.

Lemma SF64mul_1_l (s : spec_float) :
  SpecFloat.valid_binary prec emax s = true ->
  SF64mul (Prim2SF 1%float) s = s.
Proof.
  intros Hv.
  change (Prim2SF 1%float) with (S754_finite false 4503599627370496 (-52)).
  destruct s as [sg | sg | | sg m e]; try reflexivity.
  cbn [SpecFloat.valid_binary] in Hv.
  unfold SpecFloat.bounded, SpecFloat.canonical_mantissa in Hv.
  apply andb_prop in Hv as [Hc Hb]. apply Z.eqb_eq in Hc.
  unfold SF64mul, SpecFloat.SFmul. cbn [xorb].
  unfold SpecFloat.binary_round_aux, SpecFloat.shr_fexp.
  cbn [SpecFloat.Zdigits2 SpecFloat.shr_record_of_loc].
  rewrite digits2_pos_shift.
  replace (Z.pos (SpecFloat.digits2_pos m) + 52 + (-52 + e))%Z
    with (Z.pos (SpecFloat.digits2_pos m) + e)%Z by lia.
  rewrite Hc. replace (e - (-52 + e))%Z with 52%Z by lia.
  cbn [SpecFloat.shr]. rewrite shr_shift.
  cbn [SpecFloat.shr_m SpecFloat.loc_of_shr_record SpecFloat.round_nearest_even
       SpecFloat.Zdigits2 SpecFloat.shr_record_of_loc].
  replace (-52 + e + 52)%Z with e by lia.
  rewrite Hc, Z.sub_diag. cbn [SpecFloat.shr SpecFloat.shr_m]. now rewrite Hb.
Qed.

Lemma binary64_mul_1_l (x : float) : (1 * x)%float = x.
Proof.
  apply Prim2SF_inj. rewrite mul_spec. apply SF64mul_1_l, Prim2SF_valid.
Qed.

Lemma binary64_add_0_l (x : float) :
  Prim2SF x <> S754_zero true -> (0 + x)%float = x.
Proof.
  intros Hx. apply Prim2SF_inj. rewrite add_spec.
  change (Prim2SF 0%float) with (S754_zero false).
  destruct (Prim2SF x) as [[|] | sg | | sg m e]; try reflexivity.
  now contradict Hx.
Qed.

Lemma SameValueZero_refl (x : float) : Binary64.SameValueZero x x = true.
Proof.
  unfold Binary64.SameValueZero, is_nan. now destruct (x =? x)%float.
Qed.

Lemma SameValueZero_add_0_l (x : float) :
  Binary64.SameValueZero (0 + x)%float x = true.
Proof.
  destruct (Prim2SF x) as [[|] | sg | | sg m e] eqn:E.
  1: { assert (Hx : x = (-0)%float) by (apply Prim2SF_inj; now rewrite E).
       subst x. reflexivity. }
  all: rewrite binary64_add_0_l by (rewrite E; discriminate);
       apply SameValueZero_refl.
Qed.

(** ** The binary64 logistic function saturates

    Whatever [Math.exp] computes, the binary64 [logistic] is not strictly
    increasing on the doubles.  It is 0.5 at 0 and 1 at positive infinity;
    were it strictly increasing, the [2^52] integers from [2^52] to
    [2^53 - 1] would be sent to [2^52] different doubles strictly between
    0.5 and 1, and there are only [2^52 - 1] of those. *)

Lemma digits2_pos_bounds (m : positive) :
  (2 ^ (Z.pos (SpecFloat.digits2_pos m) - 1) <= Z.pos m
   < 2 ^ Z.pos (SpecFloat.digits2_pos m))%Z.
Proof.
  induction m as [m IH | m IH |]; cbn [SpecFloat.digits2_pos].
  - rewrite Pos2Z.inj_succ, Z.pow_succ_r by lia.
    replace (Z.succ (Z.pos (SpecFloat.digits2_pos m)) - 1)%Z
      with (Z.succ (Z.pos (SpecFloat.digits2_pos m) - 1)) by lia.
    rewrite Z.pow_succ_r by lia. lia.
  - rewrite Pos2Z.inj_succ, Z.pow_succ_r by lia.
    replace (Z.succ (Z.pos (SpecFloat.digits2_pos m)) - 1)%Z
      with (Z.succ (Z.pos (SpecFloat.digits2_pos m) - 1)) by lia.
    rewrite Z.pow_succ_r by lia. lia.
  - cbn. lia.
Qed.

Lemma digits2_pos_53 (m : positive) :
  Z.pos (SpecFloat.digits2_pos m) = 53%Z <-> (2 ^ 52 <= Z.pos m < 2 ^ 53)%Z.
Proof.
  pose proof (digits2_pos_bounds m) as Hb.
  split.
  - intros E. rewrite E in Hb. exact Hb.
  - intros Hm.
    destruct (Z.lt_trichotomy (Z.pos (SpecFloat.digits2_pos m)) 53)
      as [Hlt | [E | Hgt]]; [| exact E |].
    + assert (2 ^ Z.pos (SpecFloat.digits2_pos m) <= 2 ^ 52)%Z
        by (apply Z.pow_le_mono_r; lia).
      lia.
    + assert (2 ^ 53 <= 2 ^ (Z.pos (SpecFloat.digits2_pos m) - 1))%Z
        by (apply Z.pow_le_mono_r; lia).
      lia.
Qed.

(** The order of two positive finite doubles: by exponent, then by
    mantissa. *)
Lemma SFltb_positive (m1 m2 : positive) (e1 e2 : Z) :
  SpecFloat.SFltb (S754_finite false m1 e1) (S754_finite false m2 e2) = true
  <-> (e1 < e2 \/ (e1 = e2 /\ Z.pos m1 < Z.pos m2))%Z.
Proof.
  unfold SpecFloat.SFltb, SpecFloat.SFcompare.
  destruct (Z.compare_spec e1 e2) as [E | E | E].
  - change (Pos.compare_cont Eq m1 m2) with (m1 ?= m2)%positive.
    destruct (Pos.compare_spec m1 m2) as [Em | Em | Em].
    + split; [discriminate | intros [H | [_ H]]; exfalso; lia].
    + split; [intros _; right; split; [exact E | lia] | intros _; reflexivity].
    + split; [discriminate | intros [H | [_ H]]; exfalso; lia].
  - split; [intros _; now left | intros _; reflexivity].
  - split; [discriminate | intros [H | [H _]]; exfalso; lia].
Qed.

Lemma ltb_same_exponent (x y : float) (m1 m2 : positive) (e : Z) :
  Prim2SF x = S754_finite false m1 e -> Prim2SF y = S754_finite false m2 e ->
  (x <? y)%float = true <-> (Z.pos m1 < Z.pos m2)%Z.
Proof.
  intros Hx Hy. rewrite ltb_spec, Hx, Hy, SFltb_positive. lia.
Qed.

Lemma big_spec (k : Z) :
  (0 <= k < 2 ^ 52)%Z ->
  Prim2SF (Binary64.big k) = S754_finite false (Z.to_pos (2 ^ 52 + k)) 0.
Proof.
  intros Hk. unfold Binary64.big. apply Prim2SF_SF2Prim.
  cbn [SpecFloat.valid_binary].
  unfold SpecFloat.bounded, SpecFloat.canonical_mantissa.
  assert (Hd : Z.pos (SpecFloat.digits2_pos (Z.to_pos (2 ^ 52 + k))) = 53%Z).
  { apply digits2_pos_53. rewrite Z2Pos.id by lia.
    change (2 ^ 53)%Z with (2 ^ 52 + 2 ^ 52)%Z. lia. }
  rewrite Hd. reflexivity.
Qed.

Lemma big_lt_succ (k : Z) :
  (0 <= k)%Z -> (k + 1 < 2 ^ 52)%Z ->
  (Binary64.big k <? Binary64.big (k + 1))%float = true.
Proof.
  intros H0 H1.
  apply (ltb_same_exponent _ _ _ _ 0%Z
           (big_spec k ltac:(lia)) (big_spec (k + 1) ltac:(lia))).
  rewrite !Z2Pos.id by lia. lia.
Qed.

Lemma zero_lt_big (k : Z) :
  (0 <= k < 2 ^ 52)%Z -> (0 <? Binary64.big k)%float = true.
Proof. intros Hk. rewrite ltb_spec, (big_spec k Hk). reflexivity. Qed.

Lemma big_lt_infinity (k : Z) :
  (0 <= k < 2 ^ 52)%Z -> (Binary64.big k <? infinity)%float = true.
Proof. intros Hk. rewrite ltb_spec, (big_spec k Hk). reflexivity. Qed.

(** A double strictly between one half and one has exponent -53 and a
    mantissa of 53 bits. *)
Lemma between_half_and_one (y : float) :
  (0.5 <? y)%float = true -> (y <? 1)%float = true ->
  exists m, Prim2SF y = S754_finite false m (-53)
            /\ (2 ^ 52 < Z.pos m < 2 ^ 53)%Z.
Proof.
  rewrite !ltb_spec. pose proof (Prim2SF_valid y) as Hv.
  change (Prim2SF 0.5%float) with (S754_finite false 4503599627370496 (-53)).
  change (Prim2SF 1%float) with (S754_finite false 4503599627370496 (-52)).
  destruct (Prim2SF y) as [sg | sg | | sg m e]; try discriminate.
  - destruct sg; discriminate.
  - destruct sg; [discriminate |].
    rewrite !SFltb_positive. intros Hlo Hhi.
    cbn [SpecFloat.valid_binary] in Hv.
    unfold SpecFloat.bounded, SpecFloat.canonical_mantissa in Hv.
    apply andb_prop in Hv as [Hc _]. apply Z.eqb_eq in Hc.
    unfold SpecFloat.fexp, SpecFloat.emin, prec, emax in Hc.
    pose proof (digits2_pos_bounds m) as Hb.
    assert (He : e = (-53)%Z \/ e = (-52)%Z) by lia.
    assert (Hd : Z.pos (SpecFloat.digits2_pos m) = 53%Z) by lia.
    rewrite Hd in Hb.
    change (2 ^ (53 - 1))%Z with 4503599627370496%Z in Hb.
    change (2 ^ 53)%Z with 9007199254740992%Z in Hb.
    exists m. destruct He as [-> | ->].
    + split; [reflexivity |].
      change (2 ^ 52)%Z with 4503599627370496%Z.
      change (2 ^ 53)%Z with 9007199254740992%Z. lia.
    + exfalso. lia.
Qed.

Section saturation.

Variable impl : float -> float.

Hypothesis increasing : forall x y : float,
  (x <? y)%float = true ->
  (Binary64.logistic impl x <? Binary64.logistic impl y)%float = true.

Lemma logistic_big (k : Z) :
  (0 <= k < 2 ^ 52)%Z ->
  exists m,
    Prim2SF (Binary64.logistic impl (Binary64.big k)) = S754_finite false m (-53)
    /\ (2 ^ 52 < Z.pos m < 2 ^ 53)%Z.
Proof.
  intros Hk. apply between_half_and_one.
  - change 0.5%float with (Binary64.logistic impl 0).
    apply increasing. now apply zero_lt_big.
  - change 1%float with (Binary64.logistic impl infinity).
    apply increasing. now apply big_lt_infinity.
Qed.

(** The mantissa of the value at [2^52 + n] is above [2^52 + n]. *)
Lemma logistic_big_mantissa (n : nat) :
  (Z.of_nat n < 2 ^ 52)%Z ->
  exists m,
    Prim2SF (Binary64.logistic impl (Binary64.big (Z.of_nat n)))
    = S754_finite false m (-53)
    /\ (2 ^ 52 + Z.of_nat n < Z.pos m)%Z.
Proof.
  induction n as [|n IH]; intros Hn.
  - destruct (logistic_big 0 ltac:(lia)) as (m & Hm & Hb).
    exists m. split; [exact Hm | lia].
  - destruct IH as (m & Hm & Hb); [lia |].
    destruct (logistic_big (Z.of_nat (S n)) ltac:(lia)) as (m' & Hm' & Hb').
    exists m'. split; [exact Hm' |].
    assert (Hlt : (Binary64.logistic impl (Binary64.big (Z.of_nat n))
                   <? Binary64.logistic impl (Binary64.big (Z.of_nat (S n))))%float
                  = true).
    { apply increasing. replace (Z.of_nat (S n)) with (Z.of_nat n + 1)%Z by lia.
      apply big_lt_succ; lia. }
    apply (ltb_same_exponent _ _ _ _ _ Hm Hm') in Hlt. lia.
Qed.

Lemma binary64_logistic_saturates : False.
Proof.
  destruct (logistic_big_mantissa (Z.to_nat (2 ^ 52 - 1))) as (m & Hm & Hb).
  - rewrite Z2Nat.id by lia. lia.
  - rewrite Z2Nat.id in * by lia.
    destruct (logistic_big (2 ^ 52 - 1) ltac:(lia)) as (m' & Hm' & Hb').
    rewrite Hm in Hm'. injection Hm' as <-. lia.
Qed.

End saturation.

(** ** The curve functions *)

(** C1. For all real abilities and parameters each curve function computes
    its reference formula: [logistic x] is [1 / (1 + e^-x)], and the four
    curves are the formulas of section 4.1 over it.  [icc4PL] does not clamp
    [d]: the formula holds for every [d], and with [d] below [c] the result
    falls below [c] (at [c = 0.3], [d = 0.25] and ability 0 it is 0.275). *)
Theorem curve_model_formulas (x theta a b c d : R) :
  logistic x = 1 / (1 + Rpower Reference.e (- x))
  /\ icc1PL theta b = Reference.logistic (theta - b)
  /\ icc2PL theta a b = Reference.logistic (a * (theta - b))
  /\ icc3PL theta a b c = c + (1 - c) * Reference.logistic (a * (theta - b))
  /\ icc4PL theta a b c d = c + (d - c) * Reference.logistic (a * (theta - b))
  /\ icc4PL 0 1 0 0.3 0.25 = 0.275
  /\ icc4PL 0 1 0 0.3 0.25 <> icc4PL 0 1 0 0.3 (Rmax 0.25 (0.3 + 1e-6)).
Proof.
  unfold icc1PL, icc2PL, icc3PL, icc4PL.
  rewrite <- !logistic_reference.
  repeat split; try reflexivity.
  - apply logistic_reference.
  - replace (1 * (0 - 0)) with 0 by lra. rewrite logistic_0. lra.
  - replace (1 * (0 - 0)) with 0 by lra. rewrite logistic_0.
    rewrite Rmax_right by lra. lra.
Qed.

(** Without a clamp the fourth curve leaves the interval of its asymptotes
    as soon as they are in the wrong order. *)
Lemma icc4PL_below_floor (theta a b c d : R) :
  d < c -> icc4PL theta a b c d < c.
Proof.
  intros Hdc. unfold icc4PL.
  pose proof (logistic_pos (a * (theta - b))). nra.
Qed.

Lemma icc4PL_between (theta a b c d : R) :
  c <= d -> c <= icc4PL theta a b c d <= d.
Proof.
  intros Hc. unfold icc4PL.
  pose proof (logistic_pos (a * (theta - b))) as Hpos.
  pose proof (logistic_lt_1 (a * (theta - b))) as Hlt. nra.
Qed.





(** C6. The one-parameter curve is the two-parameter curve with
    discrimination 1: over the reals, and bit for bit in binary64 whatever
    the implementation of [Math.exp]. *)
Theorem icc1PL_is_icc2PL (theta b : R) :
  icc1PL theta b = icc2PL theta 1 b
  /\ forall (impl : float -> float) (ft fb : float),
       Binary64.icc1PL impl ft fb = Binary64.icc2PL impl ft 1 fb.
Proof.
  split.
  - unfold icc1PL, icc2PL. now rewrite Rmult_1_l.
  - intros impl ft fb. unfold Binary64.icc1PL, Binary64.icc2PL.
    now rewrite binary64_mul_1_l.
Qed.

(** C7. The two-parameter curve is the three-parameter curve with guessing
    floor 0 and the four-parameter curve with floor 0 and upper asymptote 1:
    over the reals, and in binary64 as the same number (up to the sign of a
    zero) whatever the implementation of [Math.exp]. *)
Theorem icc2PL_nested (theta a b : R) :
  icc2PL theta a b = icc3PL theta a b 0
  /\ icc2PL theta a b = icc4PL theta a b 0 1
  /\ forall (impl : float -> float) (ft fa fb : float),
       Binary64.SameValueZero (Binary64.icc3PL impl ft fa fb 0)
                              (Binary64.icc2PL impl ft fa fb) = true
       /\ Binary64.SameValueZero (Binary64.icc4PL impl ft fa fb 0 1)
                                 (Binary64.icc2PL impl ft fa fb) = true.
Proof.
  split; [| split].
  - unfold icc2PL, icc3PL. ring.
  - unfold icc2PL, icc4PL. ring.
  - intros impl ft fa fb.
    unfold Binary64.icc3PL, Binary64.icc4PL, Binary64.icc2PL.
    change (1.0 - 0)%float with 1%float.
    rewrite binary64_mul_1_l. split; apply SameValueZero_add_0_l.
Qed.

(** The binary64 [logistic] is strictly increasing for no implementation of
    [Math.exp]. *)
Lemma logistic_binary64_not_increasing :
  ~ exists impl : float -> float,
      forall x y : float,
        (x <? y)%float = true ->
        (Binary64.logistic impl x <? Binary64.logistic impl y)%float = true.
Proof. intros [impl H]. exact (binary64_logistic_saturates impl H). Qed.

(** C8, amended. [logistic 0] is one half, over the reals and in binary64,
    and [logistic] is strictly increasing over the reals.  The values the
    script computes are not strictly increasing over all doubles, whatever
    the implementation of [Math.exp]: they reach 1 at positive infinity
    and saturate before it. *)
Theorem logistic_half_and_increasing :
  logistic 0 = 0.5
  /\ (forall x y : R, x < y -> logistic x < logistic y)
  /\ (forall impl : float -> float,
        Binary64.logistic impl 0 = 0.5%float
        /\ Binary64.logistic impl infinity = 1%float)
  /\ forall impl : float -> float,
       ~ forall x y : float,
           (x <? y)%float = true ->
           (Binary64.logistic impl x <? Binary64.logistic impl y)%float = true.
Proof.
  split; [| split; [| split]].
  - rewrite logistic_0. lra.
  - exact logistic_increasing.
  - intros impl. split; reflexivity.
  - intros impl H. exact (binary64_logistic_saturates impl H).
Qed.

Lemma logistic_half_and_increasing_witness :
  logistic 0 = 0.5 /\ logistic 0 < logistic 1.
Proof.
  split.
  - exact (proj1 logistic_half_and_increasing).
  - apply (proj1 (proj2 logistic_half_and_increasing) 0 1). lra.
Defined.

(** C10. The three-parameter curve is the four-parameter curve with upper
    asymptote 1, and with no other upper asymptote; in binary64 the two are
    the same for every implementation of [Math.exp]. *)
Theorem icc3PL_is_icc4PL (theta a b c : R) :
  icc3PL theta a b c = icc4PL theta a b c 1
  /\ (forall d : R, icc4PL theta a b c d = icc3PL theta a b c <-> d = 1)
  /\ forall (impl : float -> float) (ft fa fb fc : float),
       Binary64.icc3PL impl ft fa fb fc = Binary64.icc4PL impl ft fa fb fc 1.
Proof.
  split; [reflexivity | split].
  - intros d. unfold icc3PL, icc4PL.
    pose proof (logistic_pos (a * (theta - b))) as Hpos.
    split; [intros H; nra | intros ->; reflexivity].
  - intros impl ft fa fb fc. reflexivity.
Qed.

(** ** The scenario values *)

(** The binary64 evaluation of the third scenario is not the double 0.6,
    whatever the implementation of [Math.exp]: the exponent is zero, and the
    sum [0.2 + 0.8 * 0.5] rounds to the next double above 0.6. *)
Lemma scenario_3PL_binary64_not_0_6 :
  ~ exists impl : float -> float, Binary64.icc3PL impl 0 1 0 0.2 = 0.6%float.
Proof. intros [impl H]. vm_compute in H. discriminate H. Qed.

(** C9, amended. [icc1PL(0, 0)] is 0.5 and [icc4PL(0, 1, 0, 0.2, 0.9)] is
    0.55, over the reals and in binary64 alike; [icc2PL(1, 2, 0)] is 0.8808
    to four decimals; [icc3PL(0, 1, 0, 0.2)] is 0.6 over the reals, and its
    binary64 evaluation is 0.6000000000000001, the double next above the
    double 0.6 and within [2^-53] of the real 0.6. *)
Theorem scenario_values :
  icc1PL 0 0 = 0.5
  /\ Rabs (icc2PL 1 2 0 - 0.8808) < 0.00005
  /\ icc3PL 0 1 0 0.2 = 0.6
  /\ icc4PL 0 1 0 0.2 0.9 = 0.55
  /\ (forall impl : float -> float,
        Binary64.icc1PL impl 0 0 = 0.5%float
        /\ Binary64.icc3PL impl 0 1 0 0.2 = 0.6000000000000001%float
        /\ Binary64.icc4PL impl 0 1 0 0.2 0.9 = 0.55%float)
  /\ PrimFloat.next_up 0.6%float = 0.6000000000000001%float
  /\ Binary64.within (1 # 2 ^ 53) (6 # 10) 0.6000000000000001%float = true.
Proof.
  unfold icc1PL, icc2PL, icc3PL, icc4PL.
  replace (0 - 0) with 0 by lra. replace (1 * 0) with 0 by lra.
  replace (2 * (1 - 0)) with 2 by lra.
  rewrite logistic_0. pose proof logistic_2_bounds as [Hl Hu].
  split; [lra |]. split; [apply Rabs_def1; lra |].
  split; [lra |]. split; [lra |].
  split; [| split]; [| vm_compute; reflexivity | vm_compute; reflexivity].
  intros impl. repeat split; vm_compute; reflexivity.
Qed.

(** ** The sample grid *)

Lemma Array_from_length {A : Type} (n : nat) (f : nat -> A) :
  length (Array_from n f) = n.
Proof. unfold Array_from. now rewrite length_fmap, length_seq. Qed.

Lemma Array_from_lookup {A : Type} (n : nat) (f : nat -> A) (i : nat) :
  (i < n)%nat -> Array_from n f !! i = Some (f i).
Proof.
  intros Hi. unfold Array_from.
  now rewrite list_lookup_fmap, lookup_seq_lt.
Qed.

(** A strictly increasing function of the index gives a strictly increasing
    sequence. *)
Lemma fmap_seq_sorted (f : nat -> R) (s n : nat) :
  (forall i j : nat, (i < j)%nat -> f i < f j) ->
  StronglySorted Rlt (f <$> seq s n).
Proof.
  intros Hf. revert s. induction n as [|n IH]; intros s; simpl.
  - constructor.
  - constructor; [apply IH |].
    apply Forall_fmap, Forall_seq. intros j Hj. simpl. apply Hf. lia.
Qed.

(** A function of the index with constant increments gives constant gaps. *)
Lemma fmap_seq_gaps (f : nat -> R) (g : R) (s n : nat) :
  (forall i : nat, f (S i) - f i = g) ->
  gaps (f <$> seq s (S n)) = replicate n g.
Proof.
  intros Hf. revert s. induction n as [|n IH]; intros s.
  - reflexivity.
  - change (gaps (f <$> seq s (S (S n))))
      with ((f (S s) - f s) :: gaps (f <$> seq (S s) (S n))).
    now rewrite IH, Hf.
Qed.

Lemma grid_point_lt (i j : nat) :
  (i < j)%nat -> -4 + (INR i * 8 / 399) < -4 + (INR j * 8 / 399).
Proof. intros Hij. apply lt_INR in Hij. lra. Qed.

Lemma grid_point_range (i : nat) :
  (i < 400)%nat -> -4 <= -4 + (INR i * 8 / 399) <= 4.
Proof.
  intros Hi. pose proof (pos_INR i) as H0.
  assert (H1 : INR i <= 399).
  { replace 399 with (INR 399) by (rewrite INR_IZR_INZ; reflexivity).
    apply le_INR. lia. }
  lra.
Qed.

Lemma thetaGrid_in_range : Forall (fun t => -4 <= t <= 4) thetaGrid.
Proof.
  unfold thetaGrid, init_thetaGrid, Array_from.
  apply Forall_fmap, Forall_seq. intros i Hi. simpl.
  apply grid_point_range. lia.
Qed.

(** Reading the keys of a value map in a callback: each lookup either gives
    a number or ends the callback. *)
Ltac read_keys H :=
  repeat match type of H with
         | context [?m !! ?k] =>
             destruct (m !! k) eqn:?; cbn [mbind option_bind] in H;
             [| discriminate H]
         end.

(** Every family samples its curve on the shared grid. *)
Lemma computeCurve_on_grid (fam : family) (v : gmap string R) (ys : list R) :
  fam ∈ families -> computeCurve fam v = Some ys ->
  length ys = length thetaGrid.
Proof.
  unfold families. rewrite !elem_of_cons, elem_of_nil.
  intros [-> | [-> | [-> | [-> | []]]]];
    cbn [computeCurve fam1PL fam2PL fam3PL fam4PL]; intros Hys;
    read_keys Hys; apply (inj Some) in Hys; subst ys; apply length_fmap.
Qed.

(** C4. The grid has 400 points, the first is -4 and the last is 4, it is
    strictly increasing with the constant gap 8/399 and lies in [[-4, 4]].
    It is set up once (a second run of the guard keeps it) and every family
    samples its curve on it.  In binary64 the grid has the same 400 points
    up to rounding: the first is -4 and the last is 4 exactly, the order is
    strict, and every point is within [2^-51] of its real position. *)
Theorem thetaGrid_shape :
  length thetaGrid = 400%nat
  /\ head thetaGrid = Some (-4)
  /\ last thetaGrid = Some 4
  /\ StronglySorted Rlt thetaGrid
  /\ gaps thetaGrid = replicate 399 (8 / 399)
  /\ Forall (fun t => -4 <= t <= 4) thetaGrid
  /\ init_thetaGrid (Some thetaGrid) = thetaGrid
  /\ (forall fam v ys, fam ∈ families -> computeCurve fam v = Some ys ->
      length ys = 400%nat)
  /\ length Binary64.thetaGrid = 400%nat
  /\ head Binary64.thetaGrid = Some (-4)%float
  /\ last Binary64.thetaGrid = Some 4%float
  /\ Binary64.increasing Binary64.thetaGrid = true
  /\ forallb (fun i => Binary64.within (1 # 2 ^ 51)
                         (-4 + inject_Z (Z.of_nat i) * 8 / 399)%Q
                         (nth i Binary64.thetaGrid 0%float))
             (seq 0 400) = true.
Proof.
  assert (Hlen : length thetaGrid = 400%nat) by apply Array_from_length.
  split; [exact Hlen |].
  split; [| split; [| split; [| split; [| split; [| split; [| split]]]]]].
  - change (head thetaGrid) with (Some (-4 + (INR 0 * 8 / 399))).
    f_equal. simpl. lra.
  - rewrite last_lookup, Hlen. simpl Nat.pred.
    unfold thetaGrid, init_thetaGrid.
    rewrite Array_from_lookup by lia. f_equal.
    replace (INR 399) with 399 by (rewrite INR_IZR_INZ; reflexivity). lra.
  - apply fmap_seq_sorted. exact grid_point_lt.
  - apply (fmap_seq_gaps (fun i => -4 + (INR i * 8 / 399)) (8 / 399) 0 399).
    intros i. rewrite S_INR. lra.
  - exact thetaGrid_in_range.
  - reflexivity.
  - intros fam v ys Hfam Hys. rewrite <- Hlen.
    now apply (computeCurve_on_grid fam v).
  - repeat split; vm_compute; reflexivity.
Qed.

(** In binary64 the gaps are equal only up to rounding: the exact
    difference of the first two points is not that of the points at
    positions 200 and 201. *)
Lemma thetaGrid_binary64_gaps :
  Binary64.exact_gap Binary64.thetaGrid 0 <> Binary64.exact_gap Binary64.thetaGrid 200.
Proof. vm_compute. discriminate. Qed.

Lemma thetaGrid_shape_witness :
  length thetaGrid = 400%nat
  /\ length ((fun t => icc1PL t 0) <$> thetaGrid) = 400%nat.
Proof.
  split.
  - exact (proj1 thetaGrid_shape).
  - apply (proj1 (proj2 (proj2 (proj2 (proj2 (proj2 (proj2 (proj2 thetaGrid_shape)))))))
            fam1PL (<["b1PL" := 0]> ∅)).
    + unfold families. apply elem_of_cons. now left.
    + cbn [computeCurve fam1PL]. now rewrite lookup_insert_eq.
Defined.

(** ** The reactive binding *)

(** *** The value map *)

Lemma assign_insert (key : string) (x : R) (values : gmap string R) :
  key <> "__proto__" -> assign key x values = <[key := x]> values.
Proof. intros H. unfold assign. now rewrite decide_False. Qed.

Lemma assign_proto (key : string) (x : R) (values : gmap string R) :
  key = "__proto__" -> assign key x values = values.
Proof. intros H. unfold assign. now rewrite decide_True. Qed.

Lemma values_insert_commute (k : string) (x : R) (acc : gmap string R)
    (sl : list slider) :
  k ∉ input_id <$> sl ->
  foldl (fun values s => assign (input_id s) (input_value s) values) (<[k := x]> acc) sl
  = <[k := x]> (foldl (fun values s => assign (input_id s) (input_value s) values) acc sl).
Proof.
  revert acc. induction sl as [|s sl IH]; intros acc Hk; [reflexivity |].
  rewrite fmap_cons, not_elem_of_cons in Hk. destruct Hk as [Hks Hk].
  cbn [foldl]. destruct (decide (input_id s = "__proto__")) as [E|E].
  - rewrite !(assign_proto (input_id s)) by exact E. now apply IH.
  - rewrite !(assign_insert (input_id s)) by exact E.
    rewrite insert_insert_ne by congruence. now apply IH.
Qed.

Lemma values_insert_slider (i : nat) (s s' : slider) (acc : gmap string R)
    (sl : list slider) :
  NoDup (input_id <$> sl) -> sl !! i = Some s -> input_id s' = input_id s ->
  foldl (fun values s => assign (input_id s) (input_value s) values) acc (<[i := s']> sl)
  = assign (input_id s') (input_value s')
      (foldl (fun values s => assign (input_id s) (input_value s) values) acc sl).
Proof.
  revert i acc. induction sl as [|s0 sl IH]; intros i acc Hnd Hi Hid; [done |].
  rewrite fmap_cons, NoDup_cons in Hnd. destruct Hnd as [Hs0 Hnd].
  destruct i as [|i]; cbn [foldl].
  - injection Hi as ->. change (<[0%nat := s']> (s :: sl)) with (s' :: sl).
    cbn [foldl]. rewrite Hid.
    destruct (decide (input_id s = "__proto__")) as [E|E].
    + now rewrite !(assign_proto (input_id s)) by exact E.
    + rewrite !(assign_insert (input_id s)) by exact E.
      rewrite !values_insert_commute by congruence.
      now rewrite insert_insert_eq.
  - change (<[S i := s']> (s0 :: sl)) with (s0 :: <[i := s']> sl).
    cbn [foldl]. now apply IH.
Qed.

Lemma getValues_insert (sl : list slider) (i : nat) (s s' : slider)
    (l l0 : option bool) (p p0 : figure) :
  NoDup (input_id <$> sl) -> sl !! i = Some s -> input_id s' = input_id s ->
  getValues (mkModel (<[i := s']> sl) l p)
  = assign (input_id s') (input_value s') (getValues (mkModel sl l0 p0)).
Proof. intros. unfold getValues. now apply (values_insert_slider i s). Qed.

Lemma getValues_lookup (m : model) (i : nat) (s : slider) :
  NoDup (input_id <$> sliderObjs m) -> sliderObjs m !! i = Some s ->
  input_id s <> "__proto__" ->
  getValues m !! input_id s = Some (input_value s).
Proof.
  intros Hnd Hi Hid. destruct m as [sl l p]. cbn [sliderObjs] in *.
  pose proof (getValues_insert sl i s s l l p p Hnd Hi eq_refl) as H.
  rewrite list_insert_id in H by done.
  rewrite H, assign_insert by exact Hid. apply lookup_insert_eq.
Qed.

Lemma alter_insert (f : slider -> slider) (i : nat) (s : slider) (sl : list slider) :
  sl !! i = Some s -> alter f i sl = <[i := f s]> sl.
Proof.
  revert i. induction sl as [|s0 sl IH]; intros [|i] Hi; try done.
  - now injection Hi as ->.
  - cbn. f_equal. now apply IH.
Qed.

(** *** States of a family *)

Lemma family_state_ids (fam : family) (m : model) :
  family_state fam m -> input_id <$> sliderObjs m = id <$> params fam.
Proof.
  unfold family_state. intros H.
  apply (f_equal (fmap (fun a : string * R * R * R => a.1.1.1))) in H.
  rewrite <- !list_fmap_compose in H. exact H.
Qed.

Lemma family_state_lookup (fam : family) (m : model) (i : nat) (p : param) :
  family_state fam m -> params fam !! i = Some p ->
  exists s, sliderObjs m !! i = Some s /\ attributes s = attributes (createSlider p).
Proof.
  unfold family_state. intros H Hp.
  apply (f_equal (fun l => l !! i)) in H.
  rewrite !list_lookup_fmap, Hp in H. cbn in H.
  destruct (sliderObjs m !! i) as [s|]; [| discriminate].
  exists s. split; [reflexivity |]. cbn in H. now apply (inj Some) in H.
Qed.

Lemma family_state_insert (fam : family) (m : model) (i : nat) (s s' : slider)
    (l : option bool) (p : figure) :
  family_state fam m -> sliderObjs m !! i = Some s ->
  attributes s' = attributes s ->
  family_state fam (mkModel (<[i := s']> (sliderObjs m)) l p).
Proof.
  unfold family_state. intros H Hi Ha. cbn [sliderObjs].
  rewrite list_fmap_insert, Ha, list_insert_id; [exact H |].
  now rewrite list_lookup_fmap, Hi.
Qed.

Lemma attributes_id (s s' : slider) :
  attributes s' = attributes s -> input_id s' = input_id s.
Proof. unfold attributes. congruence. Qed.

(** Two controls of a state replaced by controls with the same attributes:
    the attributes of the state are kept and the value map is updated at
    their two keys. *)
Lemma replace_two (sl : list slider) (i j : nat) (si sj si' sj' : slider)
    (l l0 : option bool) (p p0 : figure) :
  NoDup (input_id <$> sl) -> i <> j ->
  sl !! i = Some si -> sl !! j = Some sj ->
  attributes si' = attributes si -> attributes sj' = attributes sj ->
  attributes <$> <[i := si']> (<[j := sj']> sl) = attributes <$> sl
  /\ <[i := si']> (<[j := sj']> sl) !! i = Some si'
  /\ <[i := si']> (<[j := sj']> sl) !! j = Some sj'
  /\ getValues (mkModel (<[i := si']> (<[j := sj']> sl)) l p)
     = assign (input_id si) (input_value si')
         (assign (input_id sj) (input_value sj') (getValues (mkModel sl l0 p0))).
Proof.
  intros Hnd Hij Hi Hj Hai Haj.
  assert (Hi' : <[j := sj']> sl !! i = Some si)
    by now rewrite list_lookup_insert_ne.
  assert (Hids : input_id <$> <[j := sj']> sl = input_id <$> sl).
  { rewrite list_fmap_insert, (attributes_id _ _ Haj).
    apply list_insert_id. now rewrite list_lookup_fmap, Hj. }
  repeat split.
  - rewrite !list_fmap_insert, Hai, Haj.
    rewrite (list_insert_id _ j) by now rewrite list_lookup_fmap, Hj.
    apply list_insert_id. now rewrite list_lookup_fmap, Hi.
  - apply list_lookup_insert_eq. apply lookup_lt_Some in Hi'. exact Hi'.
  - rewrite list_lookup_insert_ne by done.
    apply list_lookup_insert_eq. apply lookup_lt_Some in Hj. exact Hj.
  - rewrite <- (attributes_id _ _ Hai), <- (attributes_id _ _ Haj).
    rewrite (getValues_insert (<[j := sj']> sl) i si si' l l p p);
      [| now rewrite Hids | exact Hi' | now apply attributes_id].
    f_equal.
    now apply (getValues_insert sl j sj sj'); [| | apply attributes_id].
Qed.

(** *** The lock *)

(** A handler that cannot fail followed by a last handler. *)
Lemma run_two (f : model -> model) (h : model -> option model) (m : model) :
  run [fun m => Some (f m); h] m = h (f m).
Proof. cbn [run]. now destruct (h (f m)). Qed.

Section lock.

Variable fam : family.
Variables ti bi : nat.
Hypothesis Htheta : thetaSlider fam = Some ti.
Hypothesis Hb : bSlider fam = Some bi.

Lemma found_theta :
  exists p, params fam !! ti = Some p /\ String.prefix "theta" (id p) = true.
Proof.
  unfold thetaSlider in Htheta.
  destruct (list_find _ _) as [[i s]|] eqn:E; [| discriminate].
  cbn in Htheta. injection Htheta as ->.
  apply list_find_Some in E as (Hl & HP & _).
  rewrite list_lookup_fmap in Hl. apply fmap_Some in Hl as (p & Hp & ->).
  now exists p.
Qed.

Lemma found_b :
  exists p, params fam !! bi = Some p /\ String.prefix "b" (id p) = true.
Proof.
  unfold bSlider in Hb.
  destruct (list_find _ _) as [[i s]|] eqn:E; [| discriminate].
  cbn in Hb. injection Hb as ->.
  apply list_find_Some in E as (Hl & HP & _).
  rewrite list_lookup_fmap in Hl. apply fmap_Some in Hl as (p & Hp & ->).
  now exists p.
Qed.

(** An identifier does not start with [theta] and with [b]: the two controls
    are different controls. *)
Lemma theta_b_distinct : ti <> bi.
Proof.
  destruct found_theta as (p & Hp & Hpre), found_b as (q & Hq & Hpre').
  intros <-. rewrite Hp in Hq. injection Hq as <-.
  destruct (id p) as [|c rest]; [discriminate |].
  apply String.prefix_correct in Hpre, Hpre'.
  cbn [String.length String.substring] in Hpre, Hpre'.
  injection Hpre as -> _. discriminate Hpre'.
Qed.

(** On the ability control the capturing listener of [setupModel] runs
    before the listener of [createSlider], although it was added after it. *)
Lemma dispatch_order_theta :
  handle <$> dispatch_order (inputListeners fam ti)
  = [fun m => Some (onThetaCapture ti bi m); onInput fam ti].
Proof.
  unfold inputListeners. rewrite Htheta, Hb, Nat.eqb_refl.
  destruct (Nat.eqb_spec ti bi) as [E|_]; [now apply theta_b_distinct in E |].
  reflexivity.
Qed.

Lemma dispatch_order_b :
  handle <$> dispatch_order (inputListeners fam bi)
  = [fun m => Some (onBCapture ti bi m); onInput fam bi].
Proof.
  unfold inputListeners. rewrite Htheta, Hb, Nat.eqb_refl.
  destruct (Nat.eqb_spec bi ti) as [E|_];
    [symmetry in E; now apply theta_b_distinct in E |].
  reflexivity.
Qed.

(** The ability control is moved to [v] with the lock checked: the
    handlers leave the state [sl'] in which the ability control holds [v] and
    the difficulty control holds [v] clamped to its own range, and [update]
    runs on that state. *)
Lemma input_theta_locked (m : model) (v : R) (sT sB : slider) :
  NoDup (input_id <$> sliderObjs m) ->
  lockCheckbox m = Some true ->
  sliderObjs m !! ti = Some sT -> sliderObjs m !! bi = Some sB ->
  exists sl',
    on_event fam (Input ti v) m = update fam (mkModel sl' (Some true) (plot m))
    /\ attributes <$> sl' = attributes <$> sliderObjs m
    /\ (forall k, k <> ti -> k <> bi -> sl' !! k = sliderObjs m !! k)
    /\ input_value <$> sl' !! ti = Some v
    /\ input_value <$> sl' !! bi = Some (clamp (input_min sB) (input_max sB) v)
    /\ getValues (mkModel sl' (Some true) (plot m))
       = assign (input_id sT) v
           (assign (input_id sB) (clamp (input_min sB) (input_max sB) v) (getValues m)).
Proof.
  intros Hnd Hlock HT HB. pose proof theta_b_distinct as Hne.
  destruct m as [sl lk p]. cbn [sliderObjs lockCheckbox plot] in *. subst lk.
  set (nb := clamp (input_min sB) (input_max sB) v).
  set (sT' := set_textContent v (set_value v sT)).
  assert (HaT : attributes sT' = attributes sT) by reflexivity.
  (* the state in which [update] runs, whether or not the difficulty
     control had to be written *)
  assert (Hrun : exists sB', attributes sB' = attributes sB /\ input_value sB' = nb
            /\ on_event fam (Input ti v) (mkModel sl (Some true) p)
               = update fam (mkModel (<[ti := sT']> (<[bi := sB']> sl)) (Some true) p)).
  { unfold on_event. cbn [sliderObjs lockCheckbox plot]. rewrite HT.
    unfold dispatchEvent. rewrite dispatch_order_theta, run_two.
    rewrite (alter_insert _ _ _ _ HT).
    unfold onThetaCapture. cbn [sliderObjs lockCheckbox plot].
    rewrite list_lookup_insert_eq by (now apply lookup_lt_Some in HT).
    rewrite list_lookup_insert_ne, HB by done.
    cbn [input_value set_value input_min input_max]. fold (clamp (input_min sB) (input_max sB) v).
    fold nb. destruct (Req_dec_T (input_value sB) nb) as [E|E].
    - exists sB. repeat split; [exact E |].
      unfold onInput. cbn [sliderObjs lockCheckbox plot].
      rewrite (alter_insert _ ti (set_value v sT))
        by (apply list_lookup_insert_eq; now apply lookup_lt_Some in HT).
      rewrite list_insert_insert_eq. rewrite (list_insert_id sl bi sB) by done.
      reflexivity.
    - exists (set_textContent nb (set_value nb sB)). repeat split.
      unfold onInput. cbn [sliderObjs lockCheckbox plot].
      rewrite (alter_insert _ ti (set_value v sT)).
      + rewrite (list_insert_insert_ne _ ti bi) by done.
        rewrite list_insert_insert_eq.
        now rewrite (list_insert_insert_ne _ ti bi) by done.
      + rewrite list_lookup_insert_ne by done.
        apply list_lookup_insert_eq. now apply lookup_lt_Some in HT. }
  destruct Hrun as (sB' & HaB & HvB & Hrun).
  exists (<[ti := sT']> (<[bi := sB']> sl)).
  destruct (replace_two sl ti bi sT sB sT' sB' (Some true) (Some true) p p
              Hnd Hne HT HB HaT HaB) as (Hattr & HlT & HlB & Hvals).
  split; [exact Hrun |]. split; [exact Hattr |].
  split; [intros k HkT HkB; now rewrite !list_lookup_insert_ne by done |].
  rewrite HlT, HlB, Hvals. cbn [fmap option_fmap option_map]. rewrite HvB.
  repeat split.
Qed.

(** The same in the other direction: the difficulty control is moved to
    [v] with the lock checked, and [update] runs on the state in which the
    ability control holds [v] clamped to its own range. *)
Lemma input_b_locked (m : model) (v : R) (sT sB : slider) :
  NoDup (input_id <$> sliderObjs m) ->
  lockCheckbox m = Some true ->
  sliderObjs m !! ti = Some sT -> sliderObjs m !! bi = Some sB ->
  exists sl',
    on_event fam (Input bi v) m = update fam (mkModel sl' (Some true) (plot m))
    /\ attributes <$> sl' = attributes <$> sliderObjs m
    /\ (forall k, k <> ti -> k <> bi -> sl' !! k = sliderObjs m !! k)
    /\ input_value <$> sl' !! bi = Some v
    /\ input_value <$> sl' !! ti = Some (clamp (input_min sT) (input_max sT) v)
    /\ getValues (mkModel sl' (Some true) (plot m))
       = assign (input_id sB) v
           (assign (input_id sT) (clamp (input_min sT) (input_max sT) v) (getValues m)).
Proof.
  intros Hnd Hlock HT HB. pose proof theta_b_distinct as Hne.
  assert (Hne' : bi <> ti) by congruence.
  destruct m as [sl lk p]. cbn [sliderObjs lockCheckbox plot] in *. subst lk.
  set (nt := clamp (input_min sT) (input_max sT) v).
  set (sB' := set_textContent v (set_value v sB)).
  assert (HaB : attributes sB' = attributes sB) by reflexivity.
  assert (Hrun : exists sT', attributes sT' = attributes sT /\ input_value sT' = nt
            /\ on_event fam (Input bi v) (mkModel sl (Some true) p)
               = update fam (mkModel (<[bi := sB']> (<[ti := sT']> sl)) (Some true) p)).
  { unfold on_event. cbn [sliderObjs lockCheckbox plot]. rewrite HB.
    unfold dispatchEvent. rewrite dispatch_order_b, run_two.
    rewrite (alter_insert _ _ _ _ HB).
    unfold onBCapture. cbn [sliderObjs lockCheckbox plot].
    rewrite list_lookup_insert_eq by (now apply lookup_lt_Some in HB).
    rewrite list_lookup_insert_ne, HT by done.
    cbn [input_value set_value input_min input_max].
    fold (clamp (input_min sT) (input_max sT) v).
    fold nt. destruct (Req_dec_T (input_value sT) nt) as [E|E].
    - exists sT. repeat split; [exact E |].
      unfold onInput. cbn [sliderObjs lockCheckbox plot].
      rewrite (alter_insert _ bi (set_value v sB))
        by (apply list_lookup_insert_eq; now apply lookup_lt_Some in HB).
      rewrite list_insert_insert_eq. rewrite (list_insert_id sl ti sT) by done.
      reflexivity.
    - exists (set_textContent nt (set_value nt sT)). repeat split.
      unfold onInput. cbn [sliderObjs lockCheckbox plot].
      rewrite (alter_insert _ bi (set_value v sB)).
      + rewrite (list_insert_insert_ne _ bi ti) by done.
        rewrite list_insert_insert_eq.
        now rewrite (list_insert_insert_ne _ bi ti) by done.
      + rewrite list_lookup_insert_ne by done.
        apply list_lookup_insert_eq. now apply lookup_lt_Some in HB. }
  destruct Hrun as (sT' & HaT & HvT & Hrun).
  exists (<[bi := sB']> (<[ti := sT']> sl)).
  destruct (replace_two sl bi ti sB sT sB' sT' (Some true) (Some true) p p
              Hnd Hne' HB HT HaB HaT) as (Hattr & HlB & HlT & Hvals).
  split; [exact Hrun |]. split; [exact Hattr |].
  split; [intros k HkT HkB; now rewrite !list_lookup_insert_ne by done |].
  rewrite HlT, HlB, Hvals. cbn [fmap option_fmap option_map]. rewrite HvT.
  repeat split.
Qed.

(** Checking the lock writes the clamped ability into the difficulty control
    and then runs [update]. *)
Lemma lock_checked (m : model) (l : bool) :
  lockCheckbox m = Some l ->
  on_event fam (Change true) m
  = update fam (onThetaCapture ti bi (mkModel (sliderObjs m) (Some true) (plot m))).
Proof.
  intros Hl. unfold on_event, onLockChange. rewrite Hl.
  cbn [lockCheckbox]. now rewrite Htheta, Hb.
Qed.

End lock.

(** *** The four families *)

Lemma families_sliders :
  thetaSlider fam1PL = Some 0%nat /\ bSlider fam1PL = Some 1%nat
  /\ thetaSlider fam2PL = Some 0%nat /\ bSlider fam2PL = Some 2%nat
  /\ thetaSlider fam3PL = Some 0%nat /\ bSlider fam3PL = Some 2%nat
  /\ thetaSlider fam4PL = Some 0%nat /\ bSlider fam4PL = Some 2%nat.
Proof. repeat split; reflexivity. Qed.

Lemma families_ids (fam : family) :
  fam ∈ families -> NoDup (id <$> params fam).
Proof.
  unfold families. rewrite !elem_of_cons, elem_of_nil.
  intros [-> | [-> | [-> | [-> | []]]]]; cbn [params fam1PL fam2PL fam3PL fam4PL fmap list_fmap id];
    apply (bool_decide_unpack _); vm_compute; exact I.
Qed.

(** No control of the four pages has the identifier [__proto__]. *)
Lemma families_plain_ids (fam : family) (i : nat) (p : param) :
  fam ∈ families -> params fam !! i = Some p -> id p <> "__proto__".
Proof.
  intros Hfam.
  assert (H : Forall (fun p => id p <> "__proto__") (params fam)).
  { unfold families in Hfam. rewrite !elem_of_cons, elem_of_nil in Hfam.
    destruct Hfam as [-> | [-> | [-> | [-> | []]]]];
      cbn [params fam1PL fam2PL fam3PL fam4PL];
      repeat constructor; cbn [id]; discriminate. }
  rewrite Forall_lookup in H. apply H.
Qed.

Lemma family_state_NoDup (fam : family) (m : model) :
  fam ∈ families -> family_state fam m -> NoDup (input_id <$> sliderObjs m).
Proof.
  intros Hfam Hm. rewrite (family_state_ids fam m Hm). now apply families_ids.
Qed.

(** The control at position [i] of a state of a family, with the value it
    holds under its key in the value map. *)
Lemma family_state_value (fam : family) (m : model) (i : nat) (p : param) :
  fam ∈ families -> family_state fam m -> params fam !! i = Some p ->
  exists s, sliderObjs m !! i = Some s
            /\ input_id s = id p /\ input_min s = min p /\ input_max s = max p
            /\ getValues m !! id p = Some (input_value s).
Proof.
  intros Hfam Hm Hp.
  destruct (family_state_lookup fam m i p Hm Hp) as (s & Hs & Ha).
  exists s. unfold attributes in Ha. cbn in Ha.
  injection Ha as Hid Hmin Hmax _.
  repeat split; try assumption.
  rewrite <- Hid. apply (getValues_lookup m i); [| exact Hs |].
  - now apply (family_state_NoDup fam).
  - rewrite Hid. now apply (families_plain_ids fam i).
Qed.

(** The ability control of a family is moved to [v] with the lock checked:
    [update] runs on a state of the family in which the two controls and
    the two keys of the value map hold [v] and the clamped [v]. *)
Lemma lock_input_family (fam : family) (m : model) (v : R) (ti bi : nat)
    (pT pB : param) :
  fam ∈ families -> family_state fam m -> lockCheckbox m = Some true ->
  thetaSlider fam = Some ti -> bSlider fam = Some bi ->
  params fam !! ti = Some pT -> params fam !! bi = Some pB ->
  exists sl',
    on_event fam (Input ti v) m = update fam (mkModel sl' (Some true) (plot m))
    /\ family_state fam (mkModel sl' (Some true) (plot m))
    /\ (forall k, k <> ti -> k <> bi -> sl' !! k = sliderObjs m !! k)
    /\ input_value <$> sl' !! ti = Some v
    /\ input_value <$> sl' !! bi = Some (clamp (min pB) (max pB) v)
    /\ getValues (mkModel sl' (Some true) (plot m))
       = <[id pT := v]> (<[id pB := clamp (min pB) (max pB) v]> (getValues m)).
Proof.
  intros Hfam Hm Hlock HT HB HpT HpB.
  destruct (family_state_value fam m ti pT Hfam Hm HpT) as (sT & HsT & HidT & _).
  destruct (family_state_value fam m bi pB Hfam Hm HpB)
    as (sB & HsB & HidB & Hmin & Hmax & _).
  destruct (input_theta_locked fam ti bi HT HB m v sT sB
              (family_state_NoDup fam m Hfam Hm) Hlock HsT HsB)
    as (sl' & Hev & Hattr & Hrest & HvT & HvB & Hvals).
  exists sl'. rewrite Hmin, Hmax, HidT, HidB in *.
  rewrite (assign_insert (id pT)), (assign_insert (id pB)) in Hvals
    by first [ exact (families_plain_ids fam ti pT Hfam HpT)
             | exact (families_plain_ids fam bi pB Hfam HpB) ].
  repeat split; try assumption.
  unfold family_state in *. cbn [sliderObjs]. now rewrite Hattr.
Qed.

(** Lookups in the value map after the two writes of the lock. *)
Ltac read_values :=
  repeat first
    [ rewrite lookup_insert_eq
    | rewrite lookup_insert_ne by discriminate ].

Lemma clamp_b_2 : clamp (-3) 3 2 = 2.
Proof. unfold clamp. rewrite Rmin_right, Rmax_right; lra. Qed.

Lemma lock_1PL (v : R) (m : model) :
  lockCheckbox m = Some true -> family_state fam1PL m ->
  exists m', on_event fam1PL (Input 0 v) m = Some m'
    /\ value_at m' 0 = Some v
    /\ value_at m' 1 = Some (clamp (-3) 3 v)
    /\ marker (plot m') = mkPoint v (icc1PL v (clamp (-3) 3 v))
    /\ line_y (plot m') = (fun t => icc1PL t (clamp (-3) 3 v)) <$> thetaGrid
    /\ shape_x0 (plot m') = v /\ shape_x1 (plot m') = v.
Proof.
  intros Hlock Hm.
  assert (Hfam : fam1PL ∈ families) by (unfold families; set_solver).
  destruct (lock_input_family fam1PL m v 0 1 _ _ Hfam Hm Hlock
              eq_refl eq_refl eq_refl eq_refl)
    as (sl' & Hev & Hm' & Hrest & HvT & HvB & Hvals).
  cbn [id min max] in *.
  rewrite Hev. unfold update. rewrite Hvals.
  cbn [computeCurve computePoint fam1PL]. read_values.
  cbn [mbind option_bind].
  eexists. split; [reflexivity |]. unfold value_at. cbn [sliderObjs plot marker line_y shape_x0 shape_x1 point_x].
  repeat split; assumption.
Qed.

(** The value a state of a family holds at position [i], also as the entry
    of the value map under the key of the parameter. *)
Lemma family_value_at (fam : family) (m : model) (i : nat) (p : param) :
  fam ∈ families -> family_state fam m -> params fam !! i = Some p ->
  exists x, value_at m i = Some x /\ getValues m !! id p = Some x.
Proof.
  intros Hfam Hm Hp.
  destruct (family_state_value fam m i p Hfam Hm Hp) as (s & Hs & _ & _ & _ & Hv).
  exists (input_value s). unfold value_at. now rewrite Hs.
Qed.

Lemma lock_2PL (v : R) (m : model) :
  lockCheckbox m = Some true -> family_state fam2PL m ->
  exists a m', value_at m 1 = Some a
    /\ on_event fam2PL (Input 0 v) m = Some m'
    /\ value_at m' 0 = Some v
    /\ value_at m' 1 = Some a
    /\ value_at m' 2 = Some (clamp (-3) 3 v)
    /\ marker (plot m') = mkPoint v (icc2PL v a (clamp (-3) 3 v))
    /\ line_y (plot m') = (fun t => icc2PL t a (clamp (-3) 3 v)) <$> thetaGrid
    /\ shape_x0 (plot m') = v /\ shape_x1 (plot m') = v.
Proof.
  intros Hlock Hm.
  assert (Hfam : fam2PL ∈ families) by (unfold families; set_solver).
  destruct (family_value_at fam2PL m 1 _ Hfam Hm eq_refl) as (a & Ha & Hka).
  destruct (lock_input_family fam2PL m v 0 2 _ _ Hfam Hm Hlock
              eq_refl eq_refl eq_refl eq_refl)
    as (sl' & Hev & Hm' & Hrest & HvT & HvB & Hvals).
  cbn [id min max] in *.
  rewrite Hev. unfold update. rewrite Hvals.
  cbn [computeCurve computePoint fam2PL]. read_values. rewrite Hka.
  cbn [mbind option_bind].
  exists a. eexists. split; [exact Ha |]. split; [reflexivity |].
  unfold value_at in *.
  cbn [sliderObjs plot marker line_y shape_x0 shape_x1 point_x].
  rewrite (Hrest 1%nat) by lia. repeat split; assumption.
Qed.

Lemma lock_3PL (v : R) (m : model) :
  lockCheckbox m = Some true -> family_state fam3PL m ->
  exists a c m', value_at m 1 = Some a /\ value_at m 3 = Some c
    /\ on_event fam3PL (Input 0 v) m = Some m'
    /\ value_at m' 0 = Some v
    /\ value_at m' 1 = Some a
    /\ value_at m' 2 = Some (clamp (-3) 3 v)
    /\ value_at m' 3 = Some c
    /\ marker (plot m') = mkPoint v (icc3PL v a (clamp (-3) 3 v) c)
    /\ line_y (plot m') = (fun t => icc3PL t a (clamp (-3) 3 v) c) <$> thetaGrid
    /\ shape_x0 (plot m') = v /\ shape_x1 (plot m') = v.
Proof.
  intros Hlock Hm.
  assert (Hfam : fam3PL ∈ families) by (unfold families; set_solver).
  destruct (family_value_at fam3PL m 1 _ Hfam Hm eq_refl) as (a & Ha & Hka).
  destruct (family_value_at fam3PL m 3 _ Hfam Hm eq_refl) as (c & Hc & Hkc).
  destruct (lock_input_family fam3PL m v 0 2 _ _ Hfam Hm Hlock
              eq_refl eq_refl eq_refl eq_refl)
    as (sl' & Hev & Hm' & Hrest & HvT & HvB & Hvals).
  cbn [id min max] in *.
  rewrite Hev. unfold update. rewrite Hvals.
  cbn [computeCurve computePoint fam3PL]. read_values. rewrite Hka, Hkc.
  cbn [mbind option_bind].
  exists a, c. eexists. split; [exact Ha |]. split; [exact Hc |].
  split; [reflexivity |]. unfold value_at in *.
  cbn [sliderObjs plot marker line_y shape_x0 shape_x1 point_x].
  rewrite (Hrest 1%nat), (Hrest 3%nat) by lia. repeat split; assumption.
Qed.

Lemma lock_4PL (v : R) (m : model) :
  lockCheckbox m = Some true -> family_state fam4PL m ->
  exists a c d m', value_at m 1 = Some a /\ value_at m 3 = Some c
    /\ value_at m 4 = Some d
    /\ on_event fam4PL (Input 0 v) m = Some m'
    /\ value_at m' 0 = Some v
    /\ value_at m' 1 = Some a
    /\ value_at m' 2 = Some (clamp (-3) 3 v)
    /\ value_at m' 3 = Some c
    /\ value_at m' 4 = Some d
    /\ marker (plot m')
       = mkPoint v (icc4PL v a (clamp (-3) 3 v) c (Rmax d (c + 1e-6)))
    /\ line_y (plot m')
       = (fun t => icc4PL t a (clamp (-3) 3 v) c (Rmax d (c + 1e-6))) <$> thetaGrid
    /\ shape_x0 (plot m') = v /\ shape_x1 (plot m') = v.
Proof.
  intros Hlock Hm.
  assert (Hfam : fam4PL ∈ families) by (unfold families; set_solver).
  destruct (family_value_at fam4PL m 1 _ Hfam Hm eq_refl) as (a & Ha & Hka).
  destruct (family_value_at fam4PL m 3 _ Hfam Hm eq_refl) as (c & Hc & Hkc).
  destruct (family_value_at fam4PL m 4 _ Hfam Hm eq_refl) as (d & Hd & Hkd).
  destruct (lock_input_family fam4PL m v 0 2 _ _ Hfam Hm Hlock
              eq_refl eq_refl eq_refl eq_refl)
    as (sl' & Hev & Hm' & Hrest & HvT & HvB & Hvals).
  cbn [id min max] in *.
  rewrite Hev. unfold update. rewrite Hvals.
  cbn [computeCurve computePoint fam4PL]. read_values. rewrite Hka, Hkc, Hkd.
  cbn [mbind option_bind].
  exists a, c, d. eexists. split; [exact Ha |]. split; [exact Hc |].
  split; [exact Hd |]. split; [reflexivity |]. unfold value_at in *.
  cbn [sliderObjs plot marker line_y shape_x0 shape_x1 point_x].
  rewrite (Hrest 1%nat), (Hrest 3%nat), (Hrest 4%nat) by lia.
  repeat split; assumption.
Qed.

(** C3. In each of the four families, with the lock checked, moving the
    ability control to [v] writes [v], clamped to the range [[-3, 3]] of the
    difficulty control, into the difficulty control before [update] reads
    the values: in the state after the event the ability control holds [v],
    the difficulty control holds [clamp (-3) 3 v], the other controls are
    unchanged, and the highlighted point and the curve are the curve function
    of the family at difficulty [clamp (-3) 3 v]. *)
Theorem lock_syncs_before_update (v : R) (m : model) :
  lockCheckbox m = Some true ->
  (family_state fam1PL m ->
   exists m', on_event fam1PL (Input 0 v) m = Some m'
     /\ value_at m' 0 = Some v
     /\ value_at m' 1 = Some (clamp (-3) 3 v)
     /\ marker (plot m') = mkPoint v (icc1PL v (clamp (-3) 3 v))
     /\ line_y (plot m') = (fun t => icc1PL t (clamp (-3) 3 v)) <$> thetaGrid
     /\ shape_x0 (plot m') = v /\ shape_x1 (plot m') = v)
  /\ (family_state fam2PL m ->
      exists a m', value_at m 1 = Some a
        /\ on_event fam2PL (Input 0 v) m = Some m'
        /\ value_at m' 0 = Some v
        /\ value_at m' 1 = Some a
        /\ value_at m' 2 = Some (clamp (-3) 3 v)
        /\ marker (plot m') = mkPoint v (icc2PL v a (clamp (-3) 3 v))
        /\ line_y (plot m') = (fun t => icc2PL t a (clamp (-3) 3 v)) <$> thetaGrid
        /\ shape_x0 (plot m') = v /\ shape_x1 (plot m') = v)
  /\ (family_state fam3PL m ->
      exists a c m', value_at m 1 = Some a /\ value_at m 3 = Some c
        /\ on_event fam3PL (Input 0 v) m = Some m'
        /\ value_at m' 0 = Some v
        /\ value_at m' 1 = Some a
        /\ value_at m' 2 = Some (clamp (-3) 3 v)
        /\ value_at m' 3 = Some c
        /\ marker (plot m') = mkPoint v (icc3PL v a (clamp (-3) 3 v) c)
        /\ line_y (plot m') = (fun t => icc3PL t a (clamp (-3) 3 v) c) <$> thetaGrid
        /\ shape_x0 (plot m') = v /\ shape_x1 (plot m') = v)
  /\ (family_state fam4PL m ->
      exists a c d m', value_at m 1 = Some a /\ value_at m 3 = Some c
        /\ value_at m 4 = Some d
        /\ on_event fam4PL (Input 0 v) m = Some m'
        /\ value_at m' 0 = Some v
        /\ value_at m' 1 = Some a
        /\ value_at m' 2 = Some (clamp (-3) 3 v)
        /\ value_at m' 3 = Some c
        /\ value_at m' 4 = Some d
        /\ marker (plot m')
           = mkPoint v (icc4PL v a (clamp (-3) 3 v) c (Rmax d (c + 1e-6)))
        /\ line_y (plot m')
           = (fun t => icc4PL t a (clamp (-3) 3 v) c (Rmax d (c + 1e-6)))
               <$> thetaGrid
        /\ shape_x0 (plot m') = v /\ shape_x1 (plot m') = v).
Proof.
  intros Hlock. repeat split; intros Hm.
  - now apply lock_1PL.
  - now apply lock_2PL.
  - now apply lock_3PL.
  - now apply lock_4PL.
Qed.

(** The 1PL page as set up, with the lock checked, and the ability moved to
    2: the difficulty becomes 2 and the point is [(2, icc1PL 2 2)]. *)
Lemma lock_syncs_before_update_witness :
  exists m',
    on_event fam1PL (Input 0 2)
      (mkModel (createSlider <$> params fam1PL) (Some true) createFigure) = Some m'
    /\ value_at m' 1 = Some 2
    /\ marker (plot m') = mkPoint 2 (icc1PL 2 2).
Proof.
  destruct (proj1 (lock_syncs_before_update 2
              (mkModel (createSlider <$> params fam1PL) (Some true) createFigure)
              eq_refl) eq_refl)
    as (m' & Hev & _ & Hb & Hpt & _).
  rewrite clamp_b_2 in Hb, Hpt.
  exists m'. repeat split; assumption.
Defined.

(** *** The states of a running page are states of the family *)

Lemma run_invariant (P : model -> Prop) (hs : list (model -> option model))
    (m m' : model) :
  Forall (fun h => forall m1 m2, h m1 = Some m2 -> P m1 -> P m2) hs ->
  run hs m = Some m' -> P m -> P m'.
Proof.
  intros Hhs. revert m. induction Hhs as [|h hs Hh _ IH]; intros m Hrun HP.
  - cbn in Hrun. now injection Hrun as <-.
  - cbn [run] in Hrun. destruct (h m) as [m1|] eqn:E; [| discriminate].
    apply (IH m1 Hrun). now apply (Hh m).
Qed.

Lemma update_controls (fam : family) (m m' : model) :
  update fam m = Some m' ->
  sliderObjs m' = sliderObjs m /\ lockCheckbox m' = lockCheckbox m.
Proof.
  unfold update. intros H.
  destruct (computeCurve fam (getValues m)); [| discriminate].
  destruct (computePoint fam (getValues m)); [| discriminate].
  cbn in H. now injection H as <-.
Qed.

Lemma onThetaCapture_attributes (ti bi : nat) (m : model) :
  attributes <$> sliderObjs (onThetaCapture ti bi m) = attributes <$> sliderObjs m
  /\ lockCheckbox (onThetaCapture ti bi m) = lockCheckbox m.
Proof.
  unfold onThetaCapture.
  destruct (lockCheckbox m) as [[|]|] eqn:Hl; try done.
  destruct (sliderObjs m !! ti) as [sT|] eqn:HT; try done.
  destruct (sliderObjs m !! bi) as [sB|] eqn:HB; try done.
  cbn zeta. destruct (Req_dec_T _ _); [done |].
  cbn [sliderObjs lockCheckbox]. split; [| congruence].
  rewrite list_fmap_insert. apply list_insert_id.
  now rewrite list_lookup_fmap, HB.
Qed.

Lemma onBCapture_attributes (ti bi : nat) (m : model) :
  attributes <$> sliderObjs (onBCapture ti bi m) = attributes <$> sliderObjs m
  /\ lockCheckbox (onBCapture ti bi m) = lockCheckbox m.
Proof.
  unfold onBCapture.
  destruct (lockCheckbox m) as [[|]|] eqn:Hl; try done.
  destruct (sliderObjs m !! ti) as [sT|] eqn:HT; try done.
  destruct (sliderObjs m !! bi) as [sB|] eqn:HB; try done.
  cbn zeta. destruct (Req_dec_T _ _); [done |].
  cbn [sliderObjs lockCheckbox]. split; [| congruence].
  rewrite list_fmap_insert. apply list_insert_id.
  now rewrite list_lookup_fmap, HT.
Qed.

Lemma alter_attributes (f : slider -> slider) (k : nat) (sl : list slider) :
  (forall s, attributes (f s) = attributes s) ->
  attributes <$> alter f k sl = attributes <$> sl.
Proof.
  intros Hf. revert k. induction sl as [|s sl IH]; intros [|k]; cbn; try done.
  - now rewrite Hf.
  - f_equal. apply IH.
Qed.

Lemma onInput_attributes (fam : family) (k : nat) (m m' : model) :
  onInput fam k m = Some m' ->
  attributes <$> sliderObjs m' = attributes <$> sliderObjs m
  /\ lockCheckbox m' = lockCheckbox m.
Proof.
  unfold onInput. intros H. apply update_controls in H as [-> ->].
  cbn [sliderObjs lockCheckbox]. split; [| reflexivity].
  now apply alter_attributes.
Qed.

Lemma on_event_family_state (fam : family) (ev : event) (m m' : model) :
  on_event fam ev m = Some m' -> family_state fam m -> family_state fam m'.
Proof.
  unfold family_state. set (A := attributes <$> (createSlider <$> params fam)).
  destruct ev as [k v | checked]; cbn [on_event].
  - destruct (sliderObjs m !! k); [| discriminate].
    intros Hrun Hm. unfold dispatchEvent in Hrun.
    apply (run_invariant (fun m => attributes <$> sliderObjs m = A)) in Hrun;
      [exact Hrun | | cbn [sliderObjs]; now rewrite alter_attributes].
    apply Forall_fmap. unfold dispatch_order. apply Forall_app.
    assert (Hall : Forall (fun l => forall m1 m2, handle l m1 = Some m2 ->
                attributes <$> sliderObjs m1 = A -> attributes <$> sliderObjs m2 = A)
              (inputListeners fam k)).
    { unfold inputListeners. constructor.
      - cbn [handle]. intros m1 m2 H1 <-. now apply onInput_attributes in H1.
      - destruct (thetaSlider fam) as [ti|], (bSlider fam) as [bi|];
          try constructor.
        apply Forall_app. split.
        + destruct (Nat.eqb k ti); constructor; [| constructor].
          cbn [handle]. intros m1 m2 H1 <-. injection H1 as <-.
          apply onThetaCapture_attributes.
        + destruct (Nat.eqb k bi); constructor; [| constructor].
          cbn [handle]. intros m1 m2 H1 <-. injection H1 as <-.
          apply onBCapture_attributes. }
    rewrite Forall_forall in Hall.
    split; apply Forall_forall; intros l Hl;
      apply list_elem_of_filter in Hl as [_ Hl]; exact (Hall l Hl).
  - destruct (lockCheckbox m); [| discriminate].
    unfold onLockChange. cbn [lockCheckbox].
    destruct checked; [| intros H; now injection H as <-].
    destruct (thetaSlider fam) as [ti|]; [| intros H; now injection H as <-].
    destruct (bSlider fam) as [bi|]; [| intros H; now injection H as <-].
    intros H Hm. apply update_controls in H as [-> _].
    now rewrite (proj1 (onThetaCapture_attributes ti bi _)).
Qed.

(** [setupModel] succeeds for each of the four families, with the controls
    at their defaults and the lock unchecked. *)
Lemma setupModel_families (fam : family) :
  fam ∈ families ->
  exists m, setupModel fam = Some m /\ family_state fam m
            /\ lockCheckbox m = Some false.
Proof.
  unfold families. rewrite !elem_of_cons, elem_of_nil.
  intros [-> | [-> | [-> | [-> | []]]]]; unfold setupModel, update;
    cbn [params fam1PL fam2PL fam3PL fam4PL computeCurve computePoint
         getValues sliderObjs fmap list_fmap foldl createSlider
         input_id input_value id defaultValue];
    rewrite !assign_insert by discriminate;
    read_values; cbn [mbind option_bind];
    eexists; (split; [reflexivity |]); split; reflexivity.
Qed.

Lemma reachable_family_state (fam : family) (m : model) :
  fam ∈ families -> reachable fam m -> family_state fam m.
Proof.
  intros Hfam Hr. induction Hr as [m Hm | m ev m' _ IH Hev].
  - destruct (setupModel_families fam Hfam) as (m0 & H0 & Hst & _).
    rewrite H0 in Hm. now injection Hm as <-.
  - now apply (on_event_family_state fam ev m).
Qed.

(** *** The order of the listeners is what gives the guarantee

    Were the listeners of the ability control invoked in the order of their
    registration, [update] would run before the difficulty is written: on the
    1PL page as set up, with the lock checked and the ability moved to 2, the
    difficulty control ends at 2 but the point drawn is the one for the old
    difficulty 0. *)
Lemma registration_order_reads_stale :
  exists m',
    step_in_registration_order fam1PL 0 2
      (mkModel (createSlider <$> params fam1PL) (Some true) createFigure) = Some m'
    /\ value_at m' 1 = Some 2
    /\ marker (plot m') = mkPoint 2 (icc1PL 2 0)
    /\ icc1PL 2 0 <> icc1PL 2 2.
Proof.
  unfold step_in_registration_order, inputListeners.
  rewrite (proj1 families_sliders), (proj1 (proj2 families_sliders)).
  cbn [Nat.eqb app fmap list_fmap handle run].
  unfold onInput, update.
  cbn [params fam1PL computeCurve computePoint getValues sliderObjs lockCheckbox plot
       fmap list_fmap foldl createSlider alter list_alter set_value set_textContent
       input_id input_value input_min input_max input_step valueSpan_textContent
       id defaultValue min max step].
  rewrite !assign_insert by discriminate.
  read_values. cbn [mbind option_bind].
  unfold onThetaCapture.
  cbn [sliderObjs lockCheckbox plot lookup list_lookup createSlider set_value
       set_textContent input_value input_min input_max id min max defaultValue].
  assert (Hc : Rmax (-3) (Rmin 3 2) = 2) by (exact clamp_b_2).
  rewrite Hc. destruct (Req_dec_T 0 2) as [E|_]; [lra |].
  eexists. split; [reflexivity |]. unfold value_at.
  cbn [sliderObjs plot marker insert list_insert lookup list_lookup fmap option_fmap
       option_map input_value set_value set_textContent].
  repeat split.
  unfold icc1PL. apply Rgt_not_eq. apply logistic_increasing. lra.
Qed.

(** *** The hypotheses of the lock theorem hold on a running page *)

(** [update] succeeds on every state of the four families: the value map has
    every key the callbacks read. *)
Lemma update_families_total (fam : family) (m : model) :
  fam ∈ families -> family_state fam m ->
  exists m', update fam m = Some m'
             /\ sliderObjs m' = sliderObjs m /\ lockCheckbox m' = lockCheckbox m.
Proof.
  intros Hfam Hm.
  assert (Hkeys : forall i p, params fam !! i = Some p ->
            exists x, getValues m !! id p = Some x).
  { intros i p Hp.
    destruct (family_value_at fam m i p Hfam Hm Hp) as (x & _ & Hx). now exists x. }
  cut (exists m', update fam m = Some m').
  { intros (m' & Hm'). exists m'. split; [exact Hm' |]. now apply (update_controls fam). }
  revert Hkeys. unfold families in Hfam. rewrite !elem_of_cons, elem_of_nil in Hfam.
  destruct Hfam as [-> | [-> | [-> | [-> | []]]]]; intros Hkeys; unfold update;
    cbn [computeCurve computePoint fam1PL fam2PL fam3PL fam4PL].
  - destruct (Hkeys 0%nat _ eq_refl) as (x0 & H0).
    destruct (Hkeys 1%nat _ eq_refl) as (x1 & H1).
    cbn [id] in *. rewrite H0, H1. cbn [mbind option_bind]. now eexists.
  - destruct (Hkeys 0%nat _ eq_refl) as (x0 & H0).
    destruct (Hkeys 1%nat _ eq_refl) as (x1 & H1).
    destruct (Hkeys 2%nat _ eq_refl) as (x2 & H2).
    cbn [id] in *. rewrite H0, H1, H2. cbn [mbind option_bind]. now eexists.
  - destruct (Hkeys 0%nat _ eq_refl) as (x0 & H0).
    destruct (Hkeys 1%nat _ eq_refl) as (x1 & H1).
    destruct (Hkeys 2%nat _ eq_refl) as (x2 & H2).
    destruct (Hkeys 3%nat _ eq_refl) as (x3 & H3).
    cbn [id] in *. rewrite H0, H1, H2, H3. cbn [mbind option_bind]. now eexists.
  - destruct (Hkeys 0%nat _ eq_refl) as (x0 & H0).
    destruct (Hkeys 1%nat _ eq_refl) as (x1 & H1).
    destruct (Hkeys 2%nat _ eq_refl) as (x2 & H2).
    destruct (Hkeys 3%nat _ eq_refl) as (x3 & H3).
    destruct (Hkeys 4%nat _ eq_refl) as (x4 & H4).
    cbn [id] in *. rewrite H0, H1, H2, H3, H4. cbn [mbind option_bind]. now eexists.
Qed.

(** On each of the four pages the lock can be checked, and the state then
    reached is a state of the family with the lock checked. *)
Lemma lock_reachable (fam : family) :
  fam ∈ families ->
  exists m, reachable fam m /\ family_state fam m /\ lockCheckbox m = Some true.
Proof.
  intros Hfam.
  destruct (setupModel_families fam Hfam) as (m0 & Hsetup & Hm0 & Hlock0).
  assert (Hr0 : reachable fam m0) by now constructor.
  assert (Hs : exists ti bi, thetaSlider fam = Some ti /\ bSlider fam = Some bi).
  { pose proof families_sliders as (H1 & H2 & H3 & H4 & H5 & H6 & H7 & H8).
    unfold families in Hfam. rewrite !elem_of_cons, elem_of_nil in Hfam.
    destruct Hfam as [-> | [-> | [-> | [-> | []]]]]; eauto. }
  destruct Hs as (ti & bi & HT & HB).
  set (m1 := onThetaCapture ti bi (mkModel (sliderObjs m0) (Some true) (plot m0))).
  assert (Hm1 : family_state fam m1).
  { unfold family_state, m1.
    rewrite (proj1 (onThetaCapture_attributes ti bi _)). exact Hm0. }
  assert (Hl1 : lockCheckbox m1 = Some true).
  { unfold m1. now rewrite (proj2 (onThetaCapture_attributes ti bi _)). }
  destruct (update_families_total fam m1 Hfam Hm1) as (m2 & Hup & Hsl & Hlk).
  exists m2. split; [| split].
  - apply (reach_step fam m0 (Change true) m2 Hr0).
    rewrite (lock_checked fam ti bi HT HB m0 false Hlock0). exact Hup.
  - unfold family_state. rewrite Hsl. exact Hm1.
  - now rewrite Hlk.
Qed.

(** ** The clamp of the upper asymptote *)

(** The two callbacks of the 4PL family on a value map that has their five
    keys. *)
Lemma fam4PL_callbacks (v : gmap string R) (theta a b c d : R) :
  v !! "theta4PL" = Some theta -> v !! "a4PL" = Some a ->
  v !! "b4PL" = Some b -> v !! "c4PL" = Some c -> v !! "d4PL" = Some d ->
  computeCurve fam4PL v
  = Some ((fun t => icc4PL t a b c (Rmax d (c + 1e-6))) <$> thetaGrid)
  /\ computePoint fam4PL v
     = Some (mkPoint theta (icc4PL theta a b c (Rmax d (c + 1e-6)))).
Proof.
  intros Ht Ha Hb Hc Hd.
  cbn [computeCurve computePoint fam4PL].
  rewrite Ht, Ha, Hb, Hc, Hd. cbn [mbind option_bind]. now split.
Qed.

(** C2. On every value map with the five keys of the 4PL family, both
    callbacks call [icc4PL] with [Math.max(d, c + 1e-6)] in place of [d], for
    every point of the curve and for the highlighted point; that value is
    above [c].  With [c = 0.3] and [d = 0.25] it is [0.3 + 1e-6] and not
    0.25, over the reals and in binary64. *)
Theorem d_clamped_before_icc4PL (v : gmap string R) (theta a b c d : R) :
  v !! "theta4PL" = Some theta -> v !! "a4PL" = Some a ->
  v !! "b4PL" = Some b -> v !! "c4PL" = Some c -> v !! "d4PL" = Some d ->
  computeCurve fam4PL v
  = Some ((fun t => icc4PL t a b c (Rmax d (c + 1e-6))) <$> thetaGrid)
  /\ computePoint fam4PL v
     = Some (mkPoint theta (icc4PL theta a b c (Rmax d (c + 1e-6))))
  /\ c < Rmax d (c + 1e-6)
  /\ Rmax 0.25 (0.3 + 1e-6) = 0.3 + 1e-6
  /\ Rmax 0.25 (0.3 + 1e-6) <> 0.25
  /\ Binary64.clamp_d 0.3 0.25 = (0.3 + 1e-6)%float
  /\ Binary64.clamp_d 0.3 0.25 <> 0.25%float.
Proof.
  intros Ht Ha Hb Hc Hd.
  destruct (fam4PL_callbacks v theta a b c d Ht Ha Hb Hc Hd) as [Hcurve Hpoint].
  split; [exact Hcurve |]. split; [exact Hpoint |].
  split; [| split; [| split; [| split]]].
  - apply Rlt_le_trans with (c + 1e-6); [lra | apply Rmax_r].
  - apply Rmax_right. lra.
  - rewrite Rmax_right by lra. lra.
  - vm_compute. reflexivity.
  - vm_compute. discriminate.
Qed.

Lemma d_clamped_before_icc4PL_witness :
  computePoint fam4PL
    (<["theta4PL" := 0]> (<["a4PL" := 1]> (<["b4PL" := 0]>
       (<["c4PL" := 0.3]> (<["d4PL" := 0.25]> ∅)))))
  = Some (mkPoint 0 (icc4PL 0 1 0 0.3 (Rmax 0.25 (0.3 + 1e-6)))).
Proof.
  apply (d_clamped_before_icc4PL _ 0 1 0 0.3 0.25); now read_values.
Defined.

(** Within the ranges of the controls the clamp changes nothing: every
    upper asymptote the control can hold is above every guessing floor. *)
Lemma clamp_d_in_range (c d : R) :
  0 <= c <= 0.35 -> 0.65 <= d <= 1 -> Rmax d (c + 1e-6) = d.
Proof. intros Hc Hd. apply Rmax_left. lra. Qed.

(** [update] on any state of the 4PL family draws the curve and the point
    with the clamped upper asymptote. *)
Lemma update_4PL_clamps (m : model) :
  family_state fam4PL m ->
  exists theta a b c d m',
    value_at m 0 = Some theta /\ value_at m 1 = Some a /\ value_at m 2 = Some b
    /\ value_at m 3 = Some c /\ value_at m 4 = Some d
    /\ update fam4PL m = Some m'
    /\ marker (plot m') = mkPoint theta (icc4PL theta a b c (Rmax d (c + 1e-6)))
    /\ line_y (plot m')
       = (fun t => icc4PL t a b c (Rmax d (c + 1e-6))) <$> thetaGrid.
Proof.
  intros Hm.
  assert (Hfam : fam4PL ∈ families) by (unfold families; set_solver).
  destruct (family_value_at fam4PL m 0 _ Hfam Hm eq_refl) as (theta & Ht & Hkt).
  destruct (family_value_at fam4PL m 1 _ Hfam Hm eq_refl) as (a & Ha & Hka).
  destruct (family_value_at fam4PL m 2 _ Hfam Hm eq_refl) as (b & Hb & Hkb).
  destruct (family_value_at fam4PL m 3 _ Hfam Hm eq_refl) as (c & Hc & Hkc).
  destruct (family_value_at fam4PL m 4 _ Hfam Hm eq_refl) as (d & Hd & Hkd).
  cbn [id] in *.
  destruct (fam4PL_callbacks (getValues m) theta a b c d Hkt Hka Hkb Hkc Hkd)
    as (Hcurve & Hpoint).
  exists theta, a, b, c, d. unfold update. rewrite Hcurve, Hpoint.
  cbn [mbind option_bind]. eexists. repeat split; try eassumption.
Qed.

(** The point drawn on the 4PL page lies between the guessing floor and the
    clamped upper asymptote, whatever the controls hold. *)
Lemma update_4PL_in_range (m : model) :
  family_state fam4PL m ->
  exists c d m',
    value_at m 3 = Some c /\ value_at m 4 = Some d
    /\ update fam4PL m = Some m'
    /\ c <= point_y (marker (plot m')) <= Rmax d (c + 1e-6).
Proof.
  intros Hm.
  destruct (update_4PL_clamps m Hm)
    as (theta & a & b & c & d & m' & _ & _ & _ & Hc & Hd & Hup & Hpt & _).
  exists c, d, m'. repeat split; try assumption; rewrite Hpt; cbn [point_y];
    apply icc4PL_between;
    (apply Rle_trans with (c + 1e-6); [lra | apply Rmax_r]).
Qed.

(** * Further properties of the curve model *)

(** ** Symmetry, midpoint and limits *)

Lemma logistic_opp (x : R) : logistic (- x) = 1 - logistic x.
Proof.
  unfold logistic. rewrite Ropp_involutive, exp_Ropp.
  pose proof (exp_pos x) as He. field. split; lra.
Qed.

(** X1. Every curve is point-symmetric about its midpoint at the
    difficulty: reflecting the ability at [b] reflects the probability at the
    middle of the two asymptotes. *)
Theorem curves_point_symmetric (x theta a b c d : R) :
  logistic (- x) = 1 - logistic x
  /\ icc1PL (2 * b - theta) b = 1 - icc1PL theta b
  /\ icc2PL (2 * b - theta) a b = 1 - icc2PL theta a b
  /\ icc3PL (2 * b - theta) a b c = c + 1 - icc3PL theta a b c
  /\ icc4PL (2 * b - theta) a b c d = c + d - icc4PL theta a b c d.
Proof.
  unfold icc1PL, icc2PL, icc3PL, icc4PL.
  replace (2 * b - theta - b) with (- (theta - b)) by lra.
  replace (a * - (theta - b)) with (- (a * (theta - b))) by lra.
  rewrite !logistic_opp. repeat split; lra.
Qed.

Lemma icc4PL_at_difficulty (a b c d : R) : icc4PL b a b c d = (c + d) / 2.
Proof.
  unfold icc4PL. replace (a * (b - b)) with 0 by lra. rewrite logistic_0. lra.
Qed.

(** *** The same in binary64 *)

Lemma is_finite_cases (x : float) :
  is_finite x = true ->
  (exists s, Prim2SF x = S754_zero s) \/ (exists s m e, Prim2SF x = S754_finite s m e).
Proof.
  unfold is_finite, is_nan, is_infinity.
  rewrite !FloatAxioms.eqb_spec, abs_spec.
  destruct (Prim2SF x) as [s | s | | s m e] eqn:E.
  - intros _. left. now exists s.
  - destruct s; discriminate.
  - discriminate.
  - intros _. right. now exists s, m, e.
Qed.

Lemma zero_cases (x : float) (s : bool) :
  Prim2SF x = S754_zero s -> x = 0%float \/ x = (-0)%float.
Proof.
  intros E. destruct s; [right | left]; apply Prim2SF_inj; now rewrite E.
Qed.

(** A finite double minus itself is [+0]. *)
Lemma binary64_sub_diag (x : float) : is_finite x = true -> (x - x)%float = 0%float.
Proof.
  intros Hx. apply Prim2SF_inj. rewrite sub_spec.
  destruct (is_finite_cases x Hx) as [[s ->] | (s & m & e & ->)].
  - now destruct s.
  - unfold SF64sub, SpecFloat.SFsub. rewrite Z.min_id, Z.sub_diag. reflexivity.
Qed.

(** A finite double times [+0] is a zero. *)
Lemma binary64_mul_0_r (x : float) :
  is_finite x = true -> (x * 0 = 0 \/ x * 0 = -0)%float.
Proof.
  intros Hx.
  apply (zero_cases _ (match Prim2SF x with
                       | S754_zero s | S754_finite s _ _ => s | _ => false end)).
  rewrite mul_spec.
  destruct (is_finite_cases x Hx) as [[s ->] | (s & m & e & ->)];
    now destruct s.
Qed.

(** The exponent of every curve at the difficulty is a zero, and [logistic]
    of a zero is the double 0.5. *)
Lemma binary64_logistic_at_difficulty (impl : float -> float) (fa fb : float) :
  is_finite fa = true -> is_finite fb = true ->
  Binary64.logistic impl (fa * (fb - fb)) = 0.5%float.
Proof.
  intros Ha Hb. rewrite (binary64_sub_diag fb Hb).
  destruct (binary64_mul_0_r fa Ha) as [-> | ->]; reflexivity.
Qed.

(** X2. At the difficulty every curve is at the middle of its two
    asymptotes, whatever the discrimination.  Over the reals that is one half
    for the first two families, [(1 + c) / 2] for the third and
    [(c + d) / 2] for the fourth.  In binary64, for every finite difficulty
    and discrimination and every implementation of [Math.exp], the first two
    are the double 0.5, and the other two are [c + (1 - c) * 0.5] and
    [c + (d - c) * 0.5] as the doubles compute them: the middle up to
    rounding, and not always the double nearest to it (with [c = 0.2] the
    value is 0.6000000000000001, and the double [(1 + 0.2) / 2] is 0.6). *)
Theorem curves_midpoint_at_difficulty (a b c d : R) :
  icc1PL b b = 1 / 2
  /\ icc2PL b a b = 1 / 2
  /\ icc3PL b a b c = (1 + c) / 2
  /\ icc4PL b a b c d = (c + d) / 2
  /\ (forall (impl : float -> float) (fa fb fc fd : float),
        is_finite fb = true ->
        Binary64.icc1PL impl fb fb = 0.5%float
        /\ (is_finite fa = true ->
            Binary64.icc2PL impl fb fa fb = 0.5%float
            /\ Binary64.icc3PL impl fb fa fb fc = (fc + (1 - fc) * 0.5)%float
            /\ Binary64.icc4PL impl fb fa fb fc fd
               = (fc + (fd - fc) * 0.5)%float))
  /\ (0.2 + (1 - 0.2) * 0.5)%float = 0.6000000000000001%float
  /\ ((1 + 0.2) / 2)%float = 0.6%float
  /\ (0.6 <? 0.6000000000000001)%float = true.
Proof.
  split; [| split; [| split; [| split; [| split]]]].
  - unfold icc1PL. replace (b - b) with 0 by lra. apply logistic_0.
  - unfold icc2PL. replace (a * (b - b)) with 0 by lra. apply logistic_0.
  - change (icc3PL b a b c) with (icc4PL b a b c 1).
    rewrite icc4PL_at_difficulty. lra.
  - apply icc4PL_at_difficulty.
  - intros impl fa fb fc fd Hb.
    unfold Binary64.icc1PL, Binary64.icc2PL, Binary64.icc3PL, Binary64.icc4PL.
    split.
    + rewrite (binary64_sub_diag fb Hb). reflexivity.
    + intros Ha. now rewrite (binary64_logistic_at_difficulty impl fa fb Ha Hb).
  - repeat split; reflexivity.
Qed.

Lemma one_minus_logistic (x : R) : 1 - logistic x < exp (- x).
Proof.
  pose proof (logistic_pos x) as Hpos. pose proof (logistic_lt_1 x) as Hlt.
  pose proof (exp_pos (- x)) as He.
  assert (H : logistic x * (1 + exp (- x)) = 1)
    by (unfold logistic; field; lra).
  nra.
Qed.

(** X3. [logistic] tends to 1 at positive infinity and to 0 at negative
    infinity without reaching either: for every [eps > 0] there is a bound
    beyond which it is within [eps] of the limit.  In binary64 the limits
    are reached at the two infinities, whatever the implementation of
    [Math.exp]. *)
Theorem logistic_limits (eps : R) :
  0 < eps ->
  (exists M, (forall x, M < x -> 1 - eps < logistic x < 1)
             /\ (forall x, x < - M -> 0 < logistic x < eps))
  /\ forall impl : float -> float,
       Binary64.logistic impl infinity = 1%float
       /\ Binary64.logistic impl neg_infinity = 0%float.
Proof.
  intros Heps. split; [| intros impl; split; reflexivity].
  exists (- ln eps).
  assert (Hlim : forall x, - ln eps < x -> 1 - logistic x < eps).
  { intros x Hx. apply Rlt_trans with (exp (- x)); [apply one_minus_logistic |].
    apply Rlt_le_trans with (exp (ln eps)); [apply exp_increasing; lra |].
    rewrite (exp_ln eps Heps). lra. }
  split; intros x Hx.
  - split; [| apply logistic_lt_1]. specialize (Hlim x Hx). lra.
  - split; [apply logistic_pos |].
    specialize (Hlim (- x) ltac:(lra)). rewrite logistic_opp in Hlim. lra.
Qed.

Lemma logistic_limits_witness :
  exists M, (forall x, M < x -> 1 - 1 / 100 < logistic x < 1)
            /\ (forall x, x < - M -> 0 < logistic x < 1 / 100).
Proof. apply (logistic_limits (1 / 100)). lra. Defined.

(** ** Monotonicity in the ability *)

Lemma icc4PL_increasing (t1 t2 a b c d : R) :
  0 < a -> c < d -> t1 < t2 -> icc4PL t1 a b c d < icc4PL t2 a b c d.
Proof.
  intros Ha Hcd Ht. unfold icc4PL.
  assert (H : logistic (a * (t1 - b)) < logistic (a * (t2 - b)))
    by (apply logistic_increasing; nra).
  nra.
Qed.

(** Subtracting [+0] changes no double. *)
Lemma binary64_sub_0_r (x : float) : (x - 0)%float = x.
Proof.
  apply Prim2SF_inj. rewrite sub_spec.
  change (Prim2SF 0%float) with (S754_zero false).
  now destruct (Prim2SF x) as [[|] | [|] | | ].
Qed.

(** X4. Over the reals, with a positive discrimination and the asymptotes
    in order every curve is strictly increasing in the ability; a zero
    discrimination gives a constant curve, and a negative discrimination or
    asymptotes in the wrong order ([d < c], which [icc4PL] accepts) give a
    strictly decreasing one.  The binary64 values are not strictly
    increasing over all doubles: [icc1PL] at difficulty 0 is [logistic] and
    saturates with it, whatever the implementation of [Math.exp]. *)
Theorem curves_monotone_in_ability (t1 t2 a b c d : R) :
  t1 < t2 ->
  icc1PL t1 b < icc1PL t2 b
  /\ (0 < a -> icc2PL t1 a b < icc2PL t2 a b)
  /\ (0 < a -> c < 1 -> icc3PL t1 a b c < icc3PL t2 a b c)
  /\ (0 < a -> c < d -> icc4PL t1 a b c d < icc4PL t2 a b c d)
  /\ (a = 0 -> icc4PL t1 a b c d = icc4PL t2 a b c d)
  /\ (a < 0 -> c < d -> icc4PL t2 a b c d < icc4PL t1 a b c d)
  /\ (0 < a -> d < c -> icc4PL t2 a b c d < icc4PL t1 a b c d)
  /\ forall impl : float -> float,
       ~ forall x y : float,
           (x <? y)%float = true ->
           (Binary64.icc1PL impl x 0 <? Binary64.icc1PL impl y 0)%float = true.
Proof.
  intros Ht.
  split; [| split; [| split; [| split; [| split; [| split; [| split]]]]]].
  - unfold icc1PL. apply logistic_increasing. lra.
  - intros Ha. unfold icc2PL. apply logistic_increasing. nra.
  - intros Ha Hc. now apply (icc4PL_increasing t1 t2 a b c 1).
  - intros Ha Hcd. now apply icc4PL_increasing.
  - intros ->. unfold icc4PL. now rewrite !Rmult_0_l.
  - intros Ha Hcd. unfold icc4PL.
    assert (H : logistic (a * (t2 - b)) < logistic (a * (t1 - b)))
      by (apply logistic_increasing; nra).
    nra.
  - intros Ha Hdc. unfold icc4PL.
    assert (H : logistic (a * (t1 - b)) < logistic (a * (t2 - b)))
      by (apply logistic_increasing; nra).
    nra.
  - intros impl H. apply (binary64_logistic_saturates impl).
    intros x y Hxy. specialize (H x y Hxy). unfold Binary64.icc1PL in H.
    now rewrite !binary64_sub_0_r in H.
Qed.

Lemma curves_monotone_in_ability_witness :
  icc4PL 0 1 0 0.2 0.9 < icc4PL 1 1 0 0.2 0.9.
Proof.
  apply (proj1 (proj2 (proj2 (proj2
           (curves_monotone_in_ability 0 1 1 0 0.2 0.9 ltac:(lra)))))); lra.
Defined.

(** ** Not-a-number goes through *)

Lemma binary64_add_nan_l (y : float) : (nan + y)%float = nan.
Proof. apply Prim2SF_inj. rewrite add_spec. reflexivity. Qed.

Lemma binary64_add_nan_r (x : float) : (x + nan)%float = nan.
Proof.
  apply Prim2SF_inj. rewrite add_spec.
  change (Prim2SF nan) with S754_nan. now destruct (Prim2SF x) as [[|] | [|] | | ].
Qed.

Lemma binary64_sub_nan_l (y : float) : (nan - y)%float = nan.
Proof. apply Prim2SF_inj. rewrite sub_spec. reflexivity. Qed.

Lemma binary64_sub_nan_r (x : float) : (x - nan)%float = nan.
Proof.
  apply Prim2SF_inj. rewrite sub_spec.
  change (Prim2SF nan) with S754_nan. now destruct (Prim2SF x) as [[|] | [|] | | ].
Qed.

Lemma binary64_mul_nan_l (y : float) : (nan * y)%float = nan.
Proof. apply Prim2SF_inj. rewrite mul_spec. reflexivity. Qed.

Lemma binary64_mul_nan_r (x : float) : (x * nan)%float = nan.
Proof.
  apply Prim2SF_inj. rewrite mul_spec.
  change (Prim2SF nan) with S754_nan. now destruct (Prim2SF x) as [[|] | [|] | | ].
Qed.

(** X5. The curve functions validate nothing: a NaN in any argument of
    [icc4PL] (and so of the three curves nested in it) comes out as NaN,
    whatever the other arguments and the implementation of [Math.exp]. *)
Theorem icc4PL_binary64_nan (impl : float -> float) (theta a b c d : float) :
  Binary64.logistic impl nan = nan
  /\ Binary64.icc4PL impl nan a b c d = nan
  /\ Binary64.icc4PL impl theta nan b c d = nan
  /\ Binary64.icc4PL impl theta a nan c d = nan
  /\ Binary64.icc4PL impl theta a b nan d = nan
  /\ Binary64.icc4PL impl theta a b c nan = nan.
Proof.
  assert (HL : Binary64.logistic impl nan = nan) by reflexivity.
  unfold Binary64.icc4PL. split; [exact HL |].
  split; [| split; [| split; [| split]]].
  - now rewrite binary64_sub_nan_l, binary64_mul_nan_r, HL, binary64_mul_nan_r,
      binary64_add_nan_r.
  - now rewrite binary64_mul_nan_l, HL, binary64_mul_nan_r, binary64_add_nan_r.
  - now rewrite binary64_sub_nan_r, binary64_mul_nan_r, HL, binary64_mul_nan_r,
      binary64_add_nan_r.
  - apply binary64_add_nan_l.
  - now rewrite binary64_sub_nan_l, binary64_mul_nan_l, binary64_add_nan_r.
Qed.
(** * Further properties of the reactive binding *)

(** ** The value map *)

Lemma getValues_snoc (sl : list slider) (s : slider) (l : option bool) (p : figure) :
  getValues (mkModel (sl ++ [s]) l p)
  = assign (input_id s) (input_value s) (getValues (mkModel sl l p)).
Proof. unfold getValues. cbn [sliderObjs]. now rewrite foldl_app. Qed.

(** X6. [getValues] returns an object with one entry per identifier of a
    control, holding the value of the last control with that identifier (a
    later assignment to the same key replaces an earlier one), and no entry
    for an identifier that no control has.  The one exception is the
    identifier [__proto__]: the assignment of a number under that key
    leaves a plain object as it is, so a control with that identifier gets no
    entry. *)
Theorem getValues_last_wins (m : model) (key : string) :
  getValues m !! key
  = if decide (key = "__proto__") then None
    else input_value <$> last (filter (fun s => input_id s = key) (sliderObjs m)).
Proof.
  destruct m as [sl l p]. cbn [sliderObjs].
  induction sl as [|s sl IH] using rev_ind.
  - unfold getValues. cbn [sliderObjs foldl]. rewrite lookup_empty.
    now destruct (decide _).
  - rewrite getValues_snoc, filter_app, filter_cons, filter_nil.
    destruct (decide (input_id s = "__proto__")) as [Es | Es].
    + rewrite assign_proto, IH by exact Es.
      destruct (decide (key = "__proto__")) as [_ | Ek]; [reflexivity |].
      rewrite decide_False by congruence. now rewrite app_nil_r.
    + rewrite assign_insert by exact Es.
      destruct (decide (input_id s = key)) as [<- | Hne].
      * rewrite lookup_insert_eq, last_snoc. now rewrite decide_False.
      * rewrite lookup_insert_ne, IH by exact Hne. now rewrite app_nil_r.
Qed.

(** ** [update] *)

Lemma update_sliders (fam : family) (m : model) (l : option bool) (p : figure)
    (m' : model) :
  update fam m = Some m' ->
  update fam (mkModel (sliderObjs m) l p) = Some (mkModel (sliderObjs m) l (plot m')).
Proof.
  unfold update, getValues. cbn [sliderObjs lockCheckbox]. intros H.
  destruct (computeCurve fam _); [| discriminate].
  destruct (computePoint fam _); [| discriminate].
  cbn in H |- *. now injection H as <-.
Qed.

Lemma update_again (fam : family) (m m' : model) :
  update fam m = Some m' -> update fam m' = Some m'.
Proof.
  intros H. pose proof (update_controls fam m m' H) as [Hs Hl].
  pose proof (update_sliders fam m (lockCheckbox m') (plot m') m' H) as H'.
  rewrite <- Hs in H'. now destruct m'.
Qed.

Lemma update_plot (fam : family) (m m' : model) :
  update fam m = Some m' ->
  exists curveY pt,
    computeCurve fam (getValues m) = Some curveY
    /\ computePoint fam (getValues m) = Some pt
    /\ plot m' = mkFigure curveY pt (point_x pt) (point_x pt).
Proof.
  unfold update. intros H.
  destruct (computeCurve fam _) as [curveY|]; [| discriminate].
  destruct (computePoint fam _) as [pt|]; [| discriminate].
  cbn in H. injection H as <-. now exists curveY, pt.
Qed.

(** X7. [update] redraws and does nothing else: it leaves the controls and
    the lock as they are, puts the vertical line at the abscissa of the
    point, and what it draws depends on the controls alone, not on the lock
    or on the chart before; so a second [update] changes nothing. *)
Theorem update_redraws_from_the_controls (fam : family) (m m' : model) :
  update fam m = Some m' ->
  sliderObjs m' = sliderObjs m
  /\ lockCheckbox m' = lockCheckbox m
  /\ shape_x0 (plot m') = point_x (marker (plot m'))
  /\ shape_x1 (plot m') = point_x (marker (plot m'))
  /\ (forall l p, update fam (mkModel (sliderObjs m) l p)
                  = Some (mkModel (sliderObjs m) l (plot m')))
  /\ update fam m' = Some m'.
Proof.
  intros H. destruct (update_controls fam m m' H) as [Hs Hl].
  destruct (update_plot fam m m' H) as (curveY & pt & _ & _ & Hp).
  split; [exact Hs |]. split; [exact Hl |].
  rewrite Hp. cbn [shape_x0 shape_x1 marker]. split; [reflexivity |].
  split; [reflexivity |]. rewrite <- Hp.
  split; [intros l p; now apply update_sliders | now apply (update_again fam m)].
Qed.

Lemma update_redraws_from_the_controls_witness :
  exists m',
    update fam1PL (mkModel (createSlider <$> params fam1PL) (Some false) createFigure)
    = Some m'
    /\ update fam1PL m' = Some m'.
Proof.
  destruct (update_families_total fam1PL
              (mkModel (createSlider <$> params fam1PL) (Some false) createFigure))
    as (m' & Hup & _); [unfold families; set_solver | reflexivity |].
  exists m'. split; [exact Hup |].
  apply (update_redraws_from_the_controls fam1PL _ m' Hup).
Defined.

(** ** The listeners of a control *)

(** The handlers of the [input] listeners of a control in the order of their
    invocation: the listener of [createSlider] alone, or after the capturing
    listener when the control is the ability or the difficulty control of a
    family that has both. *)
Lemma input_handlers (fam : family) (k : nat) :
  handle <$> dispatch_order (inputListeners fam k) = [onInput fam k]
  \/ exists ti bi,
       thetaSlider fam = Some ti /\ bSlider fam = Some bi /\ ti <> bi
       /\ ((k = ti
            /\ handle <$> dispatch_order (inputListeners fam k)
               = [fun m => Some (onThetaCapture ti bi m); onInput fam k])
           \/ (k = bi
               /\ handle <$> dispatch_order (inputListeners fam k)
                  = [fun m => Some (onBCapture ti bi m); onInput fam k])).
Proof.
  destruct (thetaSlider fam) as [ti|] eqn:HT; [destruct (bSlider fam) as [bi|] eqn:HB |].
  - pose proof (theta_b_distinct fam ti bi HT HB) as Hne.
    destruct (decide (k = ti)) as [-> | HkT]; [| destruct (decide (k = bi)) as [-> | HkB]].
    + right. exists ti, bi. repeat split; try done.
      left. split; [done | now apply dispatch_order_theta].
    + right. exists ti, bi. repeat split; try done.
      right. split; [done | now apply dispatch_order_b].
    + left. unfold inputListeners. rewrite HT, HB.
      apply Nat.eqb_neq in HkT, HkB. now rewrite HkT, HkB.
  - left. unfold inputListeners. now rewrite HT, HB.
  - left. unfold inputListeners. now rewrite HT.
Qed.

Lemma run_one (h : model -> option model) (m : model) : run [h] m = h m.
Proof. cbn [run]. now destruct (h m). Qed.

(** An [input] event: the moved control, the capturing listener if there is
    one, and then the listener of [createSlider]. *)
Lemma on_event_input (fam : family) (k : nat) (v : R) (m : model) (s : slider) :
  sliderObjs m !! k = Some s ->
  exists m1,
    on_event fam (Input k v) m = onInput fam k m1
    /\ let m0 := mkModel (<[k := set_value v s]> (sliderObjs m))
                         (lockCheckbox m) (plot m) in
       m1 = m0
       \/ exists ti bi,
            thetaSlider fam = Some ti /\ bSlider fam = Some bi /\ ti <> bi
            /\ ((k = ti /\ m1 = onThetaCapture ti bi m0)
                \/ (k = bi /\ m1 = onBCapture ti bi m0)).
Proof.
  intros Hk. unfold on_event, dispatchEvent. rewrite Hk, (alter_insert _ _ _ _ Hk).
  destruct (input_handlers fam k)
    as [-> | (ti & bi & HT & HB & Hne & [[-> ->] | [-> ->]])].
  - eexists. rewrite run_one. split; [reflexivity | now left].
  - eexists. rewrite run_two. split; [reflexivity |].
    right. exists ti, bi. repeat split; try done. now left.
  - eexists. rewrite run_two. split; [reflexivity |].
    right. exists ti, bi. repeat split; try done. now right.
Qed.

(** What a capturing listener does to a control. *)
Lemma onThetaCapture_lookup (ti bi : nat) (m : model) (j : nat) (s1 : slider) :
  sliderObjs (onThetaCapture ti bi m) !! j = Some s1 ->
  exists s0, sliderObjs m !! j = Some s0
    /\ (s1 = s0
        \/ (j = bi /\ lockCheckbox m = Some true
            /\ exists sT, sliderObjs m !! ti = Some sT
                 /\ let x := clamp (input_min s0) (input_max s0) (input_value sT) in
                    s1 = set_textContent x (set_value x s0))).
Proof.
  unfold onThetaCapture.
  destruct (lockCheckbox m) as [[|]|] eqn:Hl; try (intros H; exists s1; now auto).
  destruct (sliderObjs m !! ti) as [sT|] eqn:HT; [| intros H; exists s1; now auto].
  destruct (sliderObjs m !! bi) as [sB|] eqn:HB; [| intros H; exists s1; now auto].
  cbn zeta. destruct (Req_dec_T _ _) as [_|_]; [intros H; exists s1; now auto |].
  cbn [sliderObjs]. destruct (decide (j = bi)) as [-> | Hj].
  - rewrite list_lookup_insert_eq by (now apply lookup_lt_Some in HB).
    intros H. injection H as <-. exists sB. split; [exact HB |].
    right. repeat split. now exists sT.
  - rewrite list_lookup_insert_ne by done. intros H. exists s1. now auto.
Qed.

Lemma onBCapture_lookup (ti bi : nat) (m : model) (j : nat) (s1 : slider) :
  sliderObjs (onBCapture ti bi m) !! j = Some s1 ->
  exists s0, sliderObjs m !! j = Some s0
    /\ (s1 = s0
        \/ (j = ti /\ lockCheckbox m = Some true
            /\ exists sB, sliderObjs m !! bi = Some sB
                 /\ let x := clamp (input_min s0) (input_max s0) (input_value sB) in
                    s1 = set_textContent x (set_value x s0))).
Proof.
  unfold onBCapture.
  destruct (lockCheckbox m) as [[|]|] eqn:Hl; try (intros H; exists s1; now auto).
  destruct (sliderObjs m !! ti) as [sT|] eqn:HT; [| intros H; exists s1; now auto].
  destruct (sliderObjs m !! bi) as [sB|] eqn:HB; [| intros H; exists s1; now auto].
  cbn zeta. destruct (Req_dec_T _ _) as [_|_]; [intros H; exists s1; now auto |].
  cbn [sliderObjs]. destruct (decide (j = ti)) as [-> | Hj].
  - rewrite list_lookup_insert_eq by (now apply lookup_lt_Some in HT).
    intros H. injection H as <-. exists sT. split; [exact HT |].
    right. repeat split. now exists sB.
  - rewrite list_lookup_insert_ne by done. intros H. exists s1. now auto.
Qed.

Lemma onThetaCapture_other (ti bi : nat) (m : model) (j : nat) :
  j <> bi -> sliderObjs (onThetaCapture ti bi m) !! j = sliderObjs m !! j.
Proof.
  intros Hj. unfold onThetaCapture.
  destruct (lockCheckbox m) as [[|]|]; try reflexivity.
  destruct (sliderObjs m !! ti); [| reflexivity].
  destruct (sliderObjs m !! bi); [| reflexivity].
  cbn zeta. destruct (Req_dec_T _ _); [reflexivity |].
  cbn [sliderObjs]. now apply list_lookup_insert_ne.
Qed.

Lemma onBCapture_other (ti bi : nat) (m : model) (j : nat) :
  j <> ti -> sliderObjs (onBCapture ti bi m) !! j = sliderObjs m !! j.
Proof.
  intros Hj. unfold onBCapture.
  destruct (lockCheckbox m) as [[|]|]; try reflexivity.
  destruct (sliderObjs m !! ti); [| reflexivity].
  destruct (sliderObjs m !! bi); [| reflexivity].
  cbn zeta. destruct (Req_dec_T _ _); [reflexivity |].
  cbn [sliderObjs]. now apply list_lookup_insert_ne.
Qed.

(** The lock as an event leaves it. *)
Lemma on_event_lock (fam : family) (ev : event) (m m' : model) :
  on_event fam ev m = Some m' ->
  match ev with
  | Input _ _ => lockCheckbox m' = lockCheckbox m
  | Change checked => is_Some (lockCheckbox m) /\ lockCheckbox m' = Some checked
  end.
Proof.
  destruct ev as [k v | checked]; cbn [on_event].
  - destruct (sliderObjs m !! k) as [s|] eqn:Hk; [| discriminate].
    intros H.
    assert (Hev : on_event fam (Input k v) m = Some m')
      by (cbn [on_event]; now rewrite Hk).
    destruct (on_event_input fam k v m s Hk) as (m1 & E & Hm1).
    rewrite E in Hev. apply onInput_attributes in Hev as [_ ->].
    cbn zeta in Hm1.
    destruct Hm1 as [-> | (ti & bi & _ & _ & _ & [[_ ->] | [_ ->]])].
    + reflexivity.
    + now rewrite (proj2 (onThetaCapture_attributes ti bi _)).
    + now rewrite (proj2 (onBCapture_attributes ti bi _)).
  - destruct (lockCheckbox m) as [l|] eqn:Hl; [| discriminate].
    unfold onLockChange. cbn [lockCheckbox]. intros H. split; [done |].
    destruct checked; [| now injection H as <-].
    destruct (thetaSlider fam) as [ti|]; [| now injection H as <-].
    destruct (bSlider fam) as [bi|]; [| now injection H as <-].
    apply update_controls in H as [_ ->].
    now rewrite (proj2 (onThetaCapture_attributes ti bi _)).
Qed.

(** The controls as an event leaves them: a control is untouched, or it is
    the control of the event and holds the value of the event, or the lock
    is checked, it is one of the ability and the difficulty control, and it
    holds the value of the other one (the value of the event when the event
    is about that one) clamped to its own range; a control that is written
    is written in its value and in its span alike. *)
Lemma on_event_controls (fam : family) (ev : event) (m m' : model) :
  on_event fam ev m = Some m' ->
  forall j s', sliderObjs m' !! j = Some s' ->
  exists s, sliderObjs m !! j = Some s
    /\ (s' = s
        \/ (exists v, ev = Input j v /\ s' = set_textContent v (set_value v s))
        \/ (exists i sP y,
              ((thetaSlider fam = Some i /\ bSlider fam = Some j)
               \/ (thetaSlider fam = Some j /\ bSlider fam = Some i))
              /\ sliderObjs m !! i = Some sP
              /\ (y = input_value sP \/ ev = Input i y)
              /\ lockCheckbox m' = Some true
              /\ let x := clamp (input_min s) (input_max s) y in
                 s' = set_textContent x (set_value x s))).
Proof.
  intros Hev j s' Hj. pose proof (on_event_lock fam ev m m' Hev) as Hlock.
  destruct ev as [k v | checked].
  - assert (Hk : is_Some (sliderObjs m !! k)).
    { cbn [on_event] in Hev. destruct (sliderObjs m !! k); [done | discriminate]. }
    destruct Hk as [sk Hk].
    destruct (on_event_input fam k v m sk Hk) as (m1 & E & Hm1).
    rewrite E in Hev. unfold onInput in Hev.
    apply update_controls in Hev as [Hs _]. cbn [sliderObjs] in Hs.
    rewrite Hs in Hj. cbn zeta in Hm1.
    set (m0 := mkModel (<[k := set_value v sk]> (sliderObjs m))
                       (lockCheckbox m) (plot m)) in *.
    assert (Hm0k : sliderObjs m0 !! k = Some (set_value v sk)).
    { cbn [sliderObjs m0]. apply list_lookup_insert_eq.
      now apply lookup_lt_Some in Hk. }
    assert (Hm0 : forall i, i <> k -> sliderObjs m0 !! i = sliderObjs m !! i).
    { intros i Hi. cbn [sliderObjs m0]. now apply list_lookup_insert_ne. }
    destruct (decide (j = k)) as [-> | Hjk].
    + (* the control of the event: no capturing listener writes it *)
      rewrite list_lookup_alter_eq in Hj.
      assert (Hm1k : sliderObjs m1 !! k = Some (set_value v sk)).
      { destruct Hm1 as [-> | (ti & bi & _ & _ & Hne & [[-> ->] | [-> ->]])].
        - exact Hm0k.
        - now rewrite onThetaCapture_other.
        - rewrite onBCapture_other; [exact Hm0k | congruence]. }
      rewrite Hm1k in Hj. cbn in Hj. injection Hj as <-.
      exists sk. split; [exact Hk |]. right. left. now exists v.
    + rewrite list_lookup_alter_ne in Hj by done.
      destruct Hm1 as [-> | (ti & bi & HT & HB & Hne & [[-> ->] | [-> ->]])].
      * rewrite Hm0 in Hj by done. exists s'. now auto.
      * apply onThetaCapture_lookup in Hj
          as (s0 & H0 & [-> | (-> & Hl & sT & HsT & ->)]);
          rewrite Hm0 in H0 by done; exists s0; (split; [exact H0 |]);
          [now left |].
        rewrite Hm0k in HsT. injection HsT as <-.
        right. right. exists ti, sk, v.
        split; [now left |]. split; [exact Hk |]. split; [now right |].
        split; [cbn in Hlock; rewrite Hlock; exact Hl | reflexivity].
      * apply onBCapture_lookup in Hj
          as (s0 & H0 & [-> | (-> & Hl & sB & HsB & ->)]);
          rewrite Hm0 in H0 by done; exists s0; (split; [exact H0 |]);
          [now left |].
        rewrite Hm0k in HsB. injection HsB as <-.
        right. right. exists bi, sk, v.
        split; [now right |]. split; [exact Hk |]. split; [now right |].
        split; [cbn in Hlock; rewrite Hlock; exact Hl | reflexivity].
  - destruct Hlock as [_ Hlock].
    cbn [on_event] in Hev. destruct (lockCheckbox m) as [l|]; [| discriminate].
    unfold onLockChange in Hev. cbn [lockCheckbox] in Hev.
    assert (Hsame : Some m' = Some (mkModel (sliderObjs m) (Some checked) (plot m))
                    -> exists s, sliderObjs m !! j = Some s /\ s' = s).
    { intros H. injection H as ->. cbn [sliderObjs] in Hj. now exists s'. }
    destruct checked;
      [| symmetry in Hev; destruct (Hsame Hev) as (s & ? & ?); exists s; now auto].
    destruct (thetaSlider fam) as [ti|] eqn:HT;
      [| symmetry in Hev; destruct (Hsame Hev) as (s & ? & ?); exists s; now auto].
    destruct (bSlider fam) as [bi|] eqn:HB;
      [| symmetry in Hev; destruct (Hsame Hev) as (s & ? & ?); exists s; now auto].
    apply update_controls in Hev as [Hs _]. rewrite Hs in Hj.
    apply onThetaCapture_lookup in Hj as (s0 & H0 & [-> | (-> & _ & sT & HsT & ->)]);
      cbn [sliderObjs] in H0; exists s0; (split; [exact H0 |]); [now left |].
    cbn [sliderObjs] in HsT.
    right. right. exists ti, sT, (input_value sT).
    split; [now left |]. split; [exact HsT |]. split; [now left |].
    split; [exact Hlock | reflexivity].
Qed.
(** ** What holds in every state of a page *)

Lemma setupModel_controls (fam : family) (m : model) :
  setupModel fam = Some m ->
  sliderObjs m = createSlider <$> params fam
  /\ (lockCheckbox m
      = match thetaSlider fam, bSlider fam with
        | Some _, Some _ => Some false
        | _, _ => None
        end).
Proof.
  unfold setupModel. intros H. now apply update_controls in H as [-> ->].
Qed.

Lemma visited_reachable (fam : family) (m : model) :
  visited fam m -> reachable fam m.
Proof.
  induction 1 as [m Hm | m ev m' _ IH _ Hev].
  - now apply reach_setup.
  - now apply (reach_step fam m ev m').
Qed.

(** Each page as set up is a state of its family, reached in a browser. *)
Lemma families_visited (fam : family) :
  fam ∈ families ->
  exists m, setupModel fam = Some m /\ visited fam m /\ reachable fam m.
Proof.
  intros Hfam. destruct (setupModel_families fam Hfam) as (m & Hm & _).
  exists m. split; [exact Hm |]. split; [now apply visit_setup | now apply reach_setup].
Qed.

Lemma fam1PL_family : fam1PL ∈ families.
Proof. unfold families. set_solver. Qed.

Lemma fam4PL_family : fam4PL ∈ families.
Proof. unfold families. set_solver. Qed.

Lemma clamp_in_range (lo hi y : R) : lo <= hi -> lo <= clamp lo hi y <= hi.
Proof.
  intros H. unfold clamp. split; [apply Rmax_l |].
  apply Rmax_lub; [exact H | apply Rmin_l].
Qed.

Lemma clamp_id (lo hi y : R) : lo <= y <= hi -> clamp lo hi y = y.
Proof.
  intros [Hl Hh]. unfold clamp. rewrite Rmin_right by exact Hh.
  now apply Rmax_right.
Qed.

(** *** Every value that the script writes is one that the control keeps *)

Lemma browsed_reachable (fam : family) (m : model) :
  browsed fam m -> reachable fam m.
Proof.
  induction 1 as [m Hm | m ev m' _ IH _ Hev].
  - now apply reach_setup.
  - now apply (reach_step fam m ev m').
Qed.

(** The range and the step of a control of a state of a family. *)
Lemma family_state_control (fam : family) (m : model) (j : nat) (s : slider) :
  family_state fam m -> sliderObjs m !! j = Some s ->
  exists p, params fam !! j = Some p
    /\ input_min s = min p /\ input_max s = max p /\ input_step s = step p.
Proof.
  unfold family_state. intros H Hj.
  apply (f_equal (fun l => l !! j)) in H.
  rewrite !list_lookup_fmap, Hj in H. cbn in H.
  destruct (params fam !! j) as [p|]; [| discriminate].
  cbn in H. apply (inj Some) in H. unfold attributes in H. cbn in H.
  injection H as _ Hmin Hmax Hstep. now exists p.
Qed.

(** The grids of the ability and the difficulty control of the four
    families: steps of 0.1 from -4 to 4, and from -3 to 3. *)
Lemma families_grids (fam : family) (ti bi : nat) :
  fam ∈ families -> thetaSlider fam = Some ti -> bSlider fam = Some bi ->
  exists pT pB, params fam !! ti = Some pT /\ params fam !! bi = Some pB
    /\ (min pT = -4 /\ max pT = 4 /\ step pT = 0.1)
    /\ (min pB = -3 /\ max pB = 3 /\ step pB = 0.1).
Proof.
  pose proof families_sliders as (H1 & H2 & H3 & H4 & H5 & H6 & H7 & H8).
  unfold families. rewrite !elem_of_cons, elem_of_nil.
  intros [-> | [-> | [-> | [-> | []]]]] HT HB.
  - rewrite H1 in HT. rewrite H2 in HB. injection HT as <-. injection HB as <-.
    now eexists _, _.
  - rewrite H3 in HT. rewrite H4 in HB. injection HT as <-. injection HB as <-.
    now eexists _, _.
  - rewrite H5 in HT. rewrite H6 in HB. injection HT as <-. injection HB as <-.
    now eexists _, _.
  - rewrite H7 in HT. rewrite H8 in HB. injection HT as <-. injection HB as <-.
    now eexists _, _.
Qed.

(** An ability on its grid, clamped to the range of the difficulty, is on
    the grid of the difficulty; and the other way round. *)
Lemma clamp_on_difficulty_grid (y : R) (k : Z) :
  -4 <= y <= 4 -> y = -4 + IZR k * 0.1 ->
  exists k', clamp (-3) 3 y = -3 + IZR k' * 0.1.
Proof.
  intros Hy Hk. destruct (Rle_dec y (-3)) as [Hlo|Hlo];
    [| destruct (Rle_dec 3 y) as [Hhi|Hhi]].
  - exists 0%Z. unfold clamp. rewrite Rmin_right, Rmax_left by lra. lra.
  - exists 60%Z. unfold clamp. rewrite Rmin_left, Rmax_right by lra. lra.
  - exists (k - 10)%Z. rewrite clamp_id by lra. rewrite minus_IZR. lra.
Qed.

Lemma clamp_on_ability_grid (y : R) (k : Z) :
  -3 <= y <= 3 -> y = -3 + IZR k * 0.1 ->
  exists k', clamp (-4) 4 y = -4 + IZR k' * 0.1.
Proof.
  intros Hy Hk. exists (k + 10)%Z. rewrite clamp_id by lra.
  rewrite plus_IZR. lra.
Qed.

(** The defaults of the four pages are values that their controls keep. *)
Lemma families_defaults_kept (fam : family) :
  fam ∈ families ->
  Forall (fun p => kept (createSlider p) (defaultValue p)) (params fam).
Proof.
  assert (Hk : forall (p : param) (k : Z),
             min p <= defaultValue p <= max p ->
             defaultValue p = min p + IZR k * step p ->
             kept (createSlider p) (defaultValue p)).
  { intros p k Hr Hg. split; [exact Hr | now exists k]. }
  unfold families. rewrite !elem_of_cons, elem_of_nil.
  intros [-> | [-> | [-> | [-> | []]]]];
    cbn [params fam1PL fam2PL fam3PL fam4PL]; repeat apply List.Forall_cons;
    try apply List.Forall_nil.
  - apply (Hk _ 40%Z); cbn; lra.
  - apply (Hk _ 30%Z); cbn; lra.
  - apply (Hk _ 40%Z); cbn; lra.
  - apply (Hk _ 18%Z); cbn; lra.
  - apply (Hk _ 30%Z); cbn; lra.
  - apply (Hk _ 40%Z); cbn; lra.
  - apply (Hk _ 18%Z); cbn; lra.
  - apply (Hk _ 30%Z); cbn; lra.
  - apply (Hk _ 20%Z); cbn; lra.
  - apply (Hk _ 40%Z); cbn; lra.
  - apply (Hk _ 18%Z); cbn; lra.
  - apply (Hk _ 30%Z); cbn; lra.
  - apply (Hk _ 20%Z); cbn; lra.
  - apply (Hk _ 25%Z); cbn; lra.
Qed.

Lemma on_event_kept (fam : family) (ev : event) (m m' : model) :
  fam ∈ families -> family_state fam m ->
  stepped_event m ev -> on_event fam ev m = Some m' ->
  Forall (fun s => valueSpan_textContent s = input_value s
                   /\ kept s (input_value s)) (sliderObjs m) ->
  Forall (fun s => valueSpan_textContent s = input_value s
                   /\ kept s (input_value s)) (sliderObjs m').
Proof.
  intros Hfam Hm Hb Hev IH. apply Forall_lookup. intros j s' Hj.
  rewrite Forall_lookup in IH.
  destruct (on_event_controls fam ev m m' Hev j s' Hj)
    as (s & Hs & [-> | [(v & -> & ->)
                       | (i & sP & y & Hrel & HsP & Hy & _ & ->)]]).
  - now apply (IH j).
  - split; [reflexivity |]. cbn in Hb. destruct Hb as (s0 & Hs0 & Hv).
    rewrite Hs in Hs0. injection Hs0 as <-. exact Hv.
  - split; [reflexivity |].
    (* the value of the partner is one that the partner keeps *)
    assert (HyP : kept sP y).
    { destruct Hy as [-> | ->]; [exact (proj2 (IH i sP HsP)) |].
      cbn in Hb. destruct Hb as (s0 & Hs0 & Hv). rewrite HsP in Hs0.
      now injection Hs0 as <-. }
    destruct HyP as [HyR (k & HyG)].
    destruct (family_state_control fam m j s Hm Hs)
      as (p & Hp & Hmin & Hmax & Hstep).
    destruct (family_state_control fam m i sP Hm HsP)
      as (q & Hq & HminP & HmaxP & HstepP).
    unfold kept. cbn [input_value input_min input_max input_step
                      set_value set_textContent].
    rewrite Hmin, Hmax, Hstep. rewrite HminP, HmaxP in HyR.
    rewrite HminP, HstepP in HyG.
    destruct Hrel as [[HT HB] | [HT HB]].
    + destruct (families_grids fam i j Hfam HT HB)
        as (pT & pB & HpT & HpB & (T1 & T2 & T3) & (B1 & B2 & B3)).
      rewrite Hq in HpT. injection HpT as <-. rewrite Hp in HpB. injection HpB as <-.
      rewrite T1, T2 in HyR. rewrite T1, T3 in HyG. rewrite B1, B2, B3.
      split; [apply clamp_in_range; lra |].
      now apply (clamp_on_difficulty_grid y k).
    + destruct (families_grids fam j i Hfam HT HB)
        as (pT & pB & HpT & HpB & (T1 & T2 & T3) & (B1 & B2 & B3)).
      rewrite Hp in HpT. injection HpT as <-. rewrite Hq in HpB. injection HpB as <-.
      rewrite B1, B2 in HyR. rewrite B1, B3 in HyG. rewrite T1, T2, T3.
      split; [apply clamp_in_range; lra |].
      now apply (clamp_on_ability_grid y k).
Qed.

(** X8. On each of the four pages, in every state that a browser reaches
    (a control is only ever moved to a value within its range and on its
    step grid), the span beside each control shows the value that the
    control holds, and that value lies within the range of the control and
    on its step grid.  So every value that the script writes into a control,
    the defaults and what the lock writes into the partner, is a value that
    a range control keeps as it is written, and whoever writes the value of
    a control, the span is written before the event is over. *)
Theorem spans_show_the_values (fam : family) (m : model) :
  fam ∈ families -> browsed fam m ->
  Forall (fun s => valueSpan_textContent s = input_value s
                   /\ kept s (input_value s)) (sliderObjs m).
Proof.
  intros Hfam. induction 1 as [m Hm | m ev m' Hbr IH Hb Hev].
  - apply setupModel_controls in Hm as [-> _]. apply Forall_fmap.
    eapply Forall_impl; [exact (families_defaults_kept fam Hfam) |].
    intros p Hp. split; [reflexivity | exact Hp].
  - apply (on_event_kept fam ev m m' Hfam); try assumption.
    apply (reachable_family_state fam m Hfam). now apply browsed_reachable.
Qed.

Lemma spans_show_the_values_witness :
  exists m, setupModel fam1PL = Some m
    /\ Forall (fun s => valueSpan_textContent s = input_value s
                        /\ kept s (input_value s)) (sliderObjs m).
Proof.
  destruct (setupModel_families fam1PL fam1PL_family) as (m & Hm & _).
  exists m. split; [exact Hm |].
  apply (spans_show_the_values fam1PL m fam1PL_family). now apply browse_setup.
Defined.

(** Values stay in range from one state of a browser to the next. *)
Lemma on_event_in_range (fam : family) (ev : event) (m m' : model) :
  browser_event m ev -> on_event fam ev m = Some m' ->
  Forall (fun s => input_min s <= input_value s <= input_max s) (sliderObjs m) ->
  Forall (fun s => input_min s <= input_value s <= input_max s) (sliderObjs m').
Proof.
  intros Hb Hev IH. apply Forall_lookup. intros j s' Hj. rewrite Forall_lookup in IH.
  destruct (on_event_controls fam ev m m' Hev j s' Hj)
    as (s & Hs & [-> | [(v & -> & ->) | (i & sP & y & _ & _ & _ & _ & ->)]]).
  - now apply (IH j).
  - cbn in Hb. destruct Hb as (s0 & Hs0 & Hv). rewrite Hs in Hs0.
    injection Hs0 as <-. exact Hv.
  - cbn. apply clamp_in_range. specialize (IH j s Hs). cbn in IH. lra.
Qed.

Lemma visited_in_range (fam : family) (m : model) :
  Forall (fun p => min p <= defaultValue p <= max p) (params fam) ->
  visited fam m ->
  Forall (fun s => input_min s <= input_value s <= input_max s) (sliderObjs m).
Proof.
  intros Hp. induction 1 as [m Hm | m ev m' _ IH Hb Hev].
  - apply setupModel_controls in Hm as [-> _]. now apply Forall_fmap.
  - now apply (on_event_in_range fam ev m m').
Qed.

Lemma families_defaults (fam : family) :
  fam ∈ families ->
  Forall (fun p => min p <= defaultValue p <= max p) (params fam).
Proof.
  unfold families. rewrite !elem_of_cons, elem_of_nil.
  intros [-> | [-> | [-> | [-> | []]]]];
    cbn [params fam1PL fam2PL fam3PL fam4PL];
    repeat constructor; cbn; lra.
Qed.

(** X9. The value of every control stays within the range of the control:
    on a page whose defaults lie in their ranges (the four pages of the
    script do), in every state that a browser reaches, where a control is
    only ever moved to a value of its range.  What the lock writes into the
    partner control is clamped to the range of the partner. *)
Theorem values_stay_in_range (fam : family) (m : model) :
  visited fam m ->
  (Forall (fun p => min p <= defaultValue p <= max p) (params fam) ->
   Forall (fun s => input_min s <= input_value s <= input_max s) (sliderObjs m))
  /\ (fam ∈ families ->
      Forall (fun s => input_min s <= input_value s <= input_max s) (sliderObjs m)).
Proof.
  intros Hv. split; intros H.
  - now apply (visited_in_range fam).
  - apply (visited_in_range fam); [now apply families_defaults | exact Hv].
Qed.

Lemma values_stay_in_range_witness :
  exists m, setupModel fam4PL = Some m
    /\ Forall (fun s => input_min s <= input_value s <= input_max s) (sliderObjs m).
Proof.
  destruct (families_visited fam4PL fam4PL_family) as (m & Hm & Hv & _).
  exists m. split; [exact Hm |].
  exact (proj2 (values_stay_in_range fam4PL m Hv) fam4PL_family).
Defined.

(** The chart of a state is what [update] draws from its controls. *)
Lemma on_event_fresh (fam : family) (ev : event) (m m' : model) :
  on_event fam ev m = Some m' -> update fam m = Some m -> update fam m' = Some m'.
Proof.
  intros Hev IH. destruct ev as [k v | checked].
  - assert (Hk : is_Some (sliderObjs m !! k)).
    { cbn [on_event] in Hev. destruct (sliderObjs m !! k); [done | discriminate]. }
    destruct Hk as [sk Hk].
    destruct (on_event_input fam k v m sk Hk) as (m1 & E & _).
    rewrite E in Hev. unfold onInput in Hev. now apply update_again in Hev.
  - cbn [on_event] in Hev. destruct (lockCheckbox m) as [l|]; [| discriminate].
    unfold onLockChange in Hev. cbn [lockCheckbox] in Hev.
    assert (Hsame : update fam (mkModel (sliderObjs m) (Some checked) (plot m))
                    = Some (mkModel (sliderObjs m) (Some checked) (plot m)))
      by now apply update_sliders.
    destruct checked; [| now injection Hev as <-].
    destruct (thetaSlider fam) as [ti|]; [| now injection Hev as <-].
    destruct (bSlider fam) as [bi|]; [| now injection Hev as <-].
    now apply update_again in Hev.
Qed.

Lemma reachable_fresh (fam : family) (m : model) :
  reachable fam m -> update fam m = Some m.
Proof.
  induction 1 as [m Hm | m ev m' _ IH Hev].
  - unfold setupModel in Hm. now apply update_again in Hm.
  - now apply (on_event_fresh fam ev m).
Qed.

(** X10. The chart is never stale: in every state of a page, of any family,
    the curve and the point on the chart are the ones that the two callbacks
    compute from the values the controls hold in that state, and the vertical
    line is at the abscissa of the point.  Every event ends with an [update]
    after the last write to a control. *)
Theorem chart_follows_the_controls (fam : family) (m : model) :
  reachable fam m ->
  exists curveY pt,
    computeCurve fam (getValues m) = Some curveY
    /\ computePoint fam (getValues m) = Some pt
    /\ plot m = mkFigure curveY pt (point_x pt) (point_x pt).
Proof.
  intros Hr. apply (update_plot fam m m). now apply reachable_fresh.
Qed.

Lemma chart_follows_the_controls_witness :
  exists m curveY pt,
    setupModel fam1PL = Some m
    /\ computePoint fam1PL (getValues m) = Some pt
    /\ plot m = mkFigure curveY pt (point_x pt) (point_x pt).
Proof.
  destruct (families_visited fam1PL fam1PL_family) as (m & Hm & _ & Hr).
  destruct (chart_follows_the_controls fam1PL m Hr) as (curveY & pt & _ & Hp & Hplot).
  now exists m, curveY, pt.
Defined.

(** ** The lock *)

(** An [input] event on a control that the lock does not concern. *)
Lemma input_without_sync (fam : family) (k : nat) (v : R) (m : model) (s : slider) :
  (lockCheckbox m = Some true ->
   thetaSlider fam <> Some k /\ bSlider fam <> Some k) ->
  sliderObjs m !! k = Some s ->
  on_event fam (Input k v) m
  = update fam (mkModel (<[k := set_textContent v (set_value v s)]> (sliderObjs m))
                        (lockCheckbox m) (plot m)).
Proof.
  intros Hl Hk.
  destruct (on_event_input fam k v m s Hk) as (m1 & E & Hm1).
  rewrite E. cbn zeta in Hm1.
  assert (Hm1' : m1 = mkModel (<[k := set_value v s]> (sliderObjs m))
                              (lockCheckbox m) (plot m)).
  { destruct Hm1 as [-> | (ti & bi & HT & HB & _ & [[-> ->] | [-> ->]])];
      [reflexivity | unfold onThetaCapture | unfold onBCapture];
      cbn [lockCheckbox]; destruct (lockCheckbox m) as [[|]|]; try reflexivity;
      destruct (Hl eq_refl) as [HT' HB']; congruence. }
  subst m1. unfold onInput. cbn [sliderObjs lockCheckbox plot].
  rewrite (alter_insert _ k (set_value v s))
    by (apply list_lookup_insert_eq; now apply lookup_lt_Some in Hk).
  now rewrite list_insert_insert_eq.
Qed.

(** X11. The lock concerns the ability and the difficulty control, and
    only while it is checked: with the lock unchecked, on a page without a
    lock, or for any other control, an [input] event writes the control of
    the event and no other.  The listeners leave the state in which that
    control holds the new value in its value and its span, and [update] runs
    on it. *)
Theorem input_without_lock_moves_one_control (fam : family) (k : nat) (v : R)
    (m : model) (s : slider) :
  (lockCheckbox m = Some true ->
   thetaSlider fam <> Some k /\ bSlider fam <> Some k) ->
  sliderObjs m !! k = Some s ->
  on_event fam (Input k v) m
  = update fam (mkModel (<[k := set_textContent v (set_value v s)]> (sliderObjs m))
                        (lockCheckbox m) (plot m))
  /\ forall m', on_event fam (Input k v) m = Some m' ->
       value_at m' k = Some v
       /\ forall j, j <> k -> sliderObjs m' !! j = sliderObjs m !! j.
Proof.
  intros Hl Hk. pose proof (input_without_sync fam k v m s Hl Hk) as E.
  split; [exact E |]. intros m' Hm'. rewrite E in Hm'.
  apply update_controls in Hm' as [Hs _]. cbn [sliderObjs] in Hs.
  unfold value_at. rewrite Hs. split.
  - rewrite list_lookup_insert_eq by (now apply lookup_lt_Some in Hk). reflexivity.
  - intros j Hj. now apply list_lookup_insert_ne.
Qed.

(** The discrimination control of the 2PL page is moved with the lock
    checked. *)
Lemma input_without_lock_moves_one_control_witness :
  on_event fam2PL (Input 1 2)
    (mkModel (createSlider <$> params fam2PL) (Some true) createFigure)
  = update fam2PL
      (mkModel (<[1%nat := set_textContent 2 (set_value 2 (createSlider
                   (mkParam "a2PL" "a (discrimination)" 0.1 3 0.05 1)))]>
                  (createSlider <$> params fam2PL))
               (Some true) createFigure).
Proof.
  refine (proj1 (input_without_lock_moves_one_control fam2PL 1 2
           (mkModel (createSlider <$> params fam2PL) (Some true) createFigure)
           (createSlider (mkParam "a2PL" "a (discrimination)" 0.1 3 0.05 1)) _ _));
    [intros _; split; discriminate | reflexivity].
Defined.

Lemma reachable_lock (fam : family) (m : model) :
  reachable fam m ->
  is_Some (lockCheckbox m) <-> is_Some (thetaSlider fam) /\ is_Some (bSlider fam).
Proof.
  induction 1 as [m Hm | m ev m' _ IH Hev].
  - apply setupModel_controls in Hm as [_ ->].
    destruct (thetaSlider fam), (bSlider fam); split;
      try (intros [x Hx]; discriminate); try (intros [[x Hx] [y Hy]]; discriminate);
      intros _; try split; eauto.
  - apply on_event_lock in Hev. destruct ev as [k v | checked].
    + now rewrite Hev.
    + destruct Hev as [Hl ->]. rewrite <- IH. split; intros _; [exact Hl | eauto].
Qed.

(** X12. A page has a lock exactly when its family has both an ability and
    a difficulty control, in every state; the two are then different
    controls.  Moving a control never checks or unchecks the lock, and a
    [change] event of the checkbox sets it to what the event says. *)
Theorem lock_needs_ability_and_difficulty (fam : family) (m : model) :
  reachable fam m ->
  (is_Some (lockCheckbox m) <-> is_Some (thetaSlider fam) /\ is_Some (bSlider fam))
  /\ (forall ti bi, thetaSlider fam = Some ti -> bSlider fam = Some bi -> ti <> bi)
  /\ (forall k v m', on_event fam (Input k v) m = Some m' ->
        lockCheckbox m' = lockCheckbox m)
  /\ (forall checked m', on_event fam (Change checked) m = Some m' ->
        lockCheckbox m' = Some checked).
Proof.
  intros Hr. split; [now apply reachable_lock |]. split; [| split].
  - intros ti bi HT HB. now apply (theta_b_distinct fam ti bi).
  - intros k v m' Hev. now apply on_event_lock in Hev.
  - intros checked m' Hev. now apply on_event_lock in Hev as [_ ->].
Qed.

Lemma lock_needs_ability_and_difficulty_witness :
  exists m, setupModel fam1PL = Some m /\ is_Some (lockCheckbox m).
Proof.
  destruct (families_visited fam1PL fam1PL_family) as (m & Hm & _ & Hr).
  exists m. split; [exact Hm |].
  apply (proj1 (lock_needs_ability_and_difficulty fam1PL m Hr)).
  split; eexists; reflexivity.
Defined.
(** The ability and the difficulty control of the four families and their
    ranges. *)
Lemma families_theta_b (fam : family) (ti bi : nat) :
  fam ∈ families -> thetaSlider fam = Some ti -> bSlider fam = Some bi ->
  ti = 0%nat
  /\ exists pT pB, params fam !! ti = Some pT /\ params fam !! bi = Some pB
       /\ min pT = -4 /\ max pT = 4 /\ min pB = -3 /\ max pB = 3.
Proof.
  pose proof families_sliders as (H1 & H2 & H3 & H4 & H5 & H6 & H7 & H8).
  unfold families. rewrite !elem_of_cons, elem_of_nil.
  intros [-> | [-> | [-> | [-> | []]]]] HT HB.
  - rewrite H1 in HT. rewrite H2 in HB. injection HT as <-. injection HB as <-.
    split; [reflexivity |]. now eexists _, _.
  - rewrite H3 in HT. rewrite H4 in HB. injection HT as <-. injection HB as <-.
    split; [reflexivity |]. now eexists _, _.
  - rewrite H5 in HT. rewrite H6 in HB. injection HT as <-. injection HB as <-.
    split; [reflexivity |]. now eexists _, _.
  - rewrite H7 in HT. rewrite H8 in HB. injection HT as <-. injection HB as <-.
    split; [reflexivity |]. now eexists _, _.
Qed.

(** The abscissa of the point is the value under the key of the first
    parameter, the ability. *)
Lemma families_point_x (fam : family) (v : gmap string R) (pt : point) :
  fam ∈ families -> computePoint fam v = Some pt ->
  exists pT, params fam !! 0%nat = Some pT /\ v !! id pT = Some (point_x pt).
Proof.
  unfold families. rewrite !elem_of_cons, elem_of_nil.
  intros [-> | [-> | [-> | [-> | []]]]];
    cbn [computePoint fam1PL fam2PL fam3PL fam4PL params]; intros H;
    eexists; (split; [reflexivity |]); cbn [id];
    read_keys H; apply (inj Some) in H; subst pt; reflexivity.
Qed.

Lemma getValues_sliders (m m' : model) :
  sliderObjs m' = sliderObjs m -> getValues m' = getValues m.
Proof. unfold getValues. now intros ->. Qed.

(** The difficulty control of a family is moved to [v] with the lock
    checked: [update] runs on a state of the family in which the two
    controls hold [v] and the clamped [v]. *)
Lemma lock_input_b_family (fam : family) (m : model) (v : R) (ti bi : nat)
    (pT pB : param) :
  fam ∈ families -> family_state fam m -> lockCheckbox m = Some true ->
  thetaSlider fam = Some ti -> bSlider fam = Some bi ->
  params fam !! ti = Some pT -> params fam !! bi = Some pB ->
  exists sl',
    on_event fam (Input bi v) m = update fam (mkModel sl' (Some true) (plot m))
    /\ family_state fam (mkModel sl' (Some true) (plot m))
    /\ (forall k, k <> ti -> k <> bi -> sl' !! k = sliderObjs m !! k)
    /\ input_value <$> sl' !! bi = Some v
    /\ input_value <$> sl' !! ti = Some (clamp (min pT) (max pT) v).
Proof.
  intros Hfam Hm Hlock HT HB HpT HpB.
  destruct (family_state_value fam m ti pT Hfam Hm HpT)
    as (sT & HsT & HidT & Hmin & Hmax & _).
  destruct (family_state_value fam m bi pB Hfam Hm HpB) as (sB & HsB & HidB & _).
  destruct (input_b_locked fam ti bi HT HB m v sT sB
              (family_state_NoDup fam m Hfam Hm) Hlock HsT HsB)
    as (sl' & Hev & Hattr & Hrest & HvB & HvT & _).
  exists sl'. rewrite Hmin, Hmax in *.
  repeat split; try assumption.
  unfold family_state in *. cbn [sliderObjs]. now rewrite Hattr.
Qed.

(** X13. The lock works from the difficulty to the ability too: in each
    of the four families, with the lock checked, moving the difficulty
    control to [v] writes [v], clamped to the range [[-4, 4]] of the ability
    control, into the ability control before [update] reads the values.
    The other controls are unchanged, the chart is computed from the state
    after the event and the point is drawn at the new ability. *)
Theorem lock_syncs_ability_from_difficulty (fam : family) (m : model) (v : R)
    (ti bi : nat) :
  fam ∈ families -> family_state fam m -> lockCheckbox m = Some true ->
  thetaSlider fam = Some ti -> bSlider fam = Some bi ->
  exists m',
    on_event fam (Input bi v) m = Some m'
    /\ value_at m' bi = Some v
    /\ value_at m' ti = Some (clamp (-4) 4 v)
    /\ (forall k, k <> ti -> k <> bi -> sliderObjs m' !! k = sliderObjs m !! k)
    /\ computeCurve fam (getValues m') = Some (line_y (plot m'))
    /\ computePoint fam (getValues m') = Some (marker (plot m'))
    /\ point_x (marker (plot m')) = clamp (-4) 4 v
    /\ (-4 <= v <= 4 -> value_at m' ti = Some v).
Proof.
  intros Hfam Hm Hlock HT HB.
  destruct (families_theta_b fam ti bi Hfam HT HB)
    as (Hti & pT & pB & HpT & HpB & Hmin & Hmax & _).
  destruct (lock_input_b_family fam m v ti bi pT pB Hfam Hm Hlock HT HB HpT HpB)
    as (sl' & Hev & Hm' & Hrest & HvB & HvT).
  rewrite Hmin, Hmax in HvT.
  destruct (update_families_total fam _ Hfam Hm') as (m' & Hup & Hs & _).
  cbn [sliderObjs] in Hs.
  destruct (update_plot fam _ m' Hup) as (curveY & pt & Hc & Hp & Hplot).
  rewrite <- (getValues_sliders _ m') in Hc, Hp by (now rewrite Hs).
  assert (Hx : point_x pt = clamp (-4) 4 v).
  { destruct (families_point_x fam _ pt Hfam Hp) as (pT' & HpT' & Hx).
    rewrite Hti in HpT. rewrite HpT in HpT'. injection HpT' as <-.
    assert (Hm'' : family_state fam m')
      by (unfold family_state in *; now rewrite Hs).
    destruct (family_value_at fam m' 0 pT Hfam Hm'' HpT) as (x & Hx1 & Hx2).
    unfold value_at in Hx1. rewrite Hs, <- Hti, HvT in Hx1. congruence. }
  exists m'. rewrite Hev. unfold value_at. rewrite Hs, Hplot.
  cbn [line_y marker]. repeat split; try assumption.
  intros Hv. now rewrite HvT, clamp_id.
Qed.

Lemma lock_syncs_ability_from_difficulty_witness :
  exists m',
    on_event fam1PL (Input 1 2)
      (mkModel (createSlider <$> params fam1PL) (Some true) createFigure) = Some m'
    /\ value_at m' 0 = Some (clamp (-4) 4 2).
Proof.
  destruct (lock_syncs_ability_from_difficulty fam1PL
              (mkModel (createSlider <$> params fam1PL) (Some true) createFigure)
              2 0 1 fam1PL_family eq_refl eq_refl eq_refl eq_refl)
    as (m' & Hev & _ & HT & _).
  now exists m'.
Defined.

(** X14. With the lock checked the highlighted point rides the midline:
    when the ability control is moved to a [v] of the range [[-3, 3]] of the
    difficulty, the difficulty becomes [v] too and the point is drawn at
    [v], on the curve whose difficulty is [v].  Over the reals its height is
    the middle of the two asymptotes: one half on the first two pages,
    [(1 + c) / 2] on the third, and on the fourth the middle of [c] and the
    clamped upper asymptote.  In binary64, for finite values of the controls
    and every implementation of [Math.exp], the height that the script
    computes is the double 0.5 on the first two pages and, on the other two,
    [c + (1 - c) * 0.5] and [c + (d' - c) * 0.5] as the doubles compute
    them, [d'] being the clamped upper asymptote: the middle up to rounding
    (with [c = 0.2] it is 0.6000000000000001, the double above 0.6). *)
Theorem locked_point_rides_the_midline (v : R) (m : model) :
  lockCheckbox m = Some true -> -3 <= v <= 3 ->
  (family_state fam1PL m ->
   exists m', on_event fam1PL (Input 0 v) m = Some m'
     /\ value_at m' 0 = Some v /\ value_at m' 1 = Some v
     /\ marker (plot m') = mkPoint v (icc1PL v v)
     /\ icc1PL v v = 1 / 2)
  /\ (family_state fam2PL m ->
      exists a m', value_at m 1 = Some a
        /\ on_event fam2PL (Input 0 v) m = Some m'
        /\ value_at m' 0 = Some v /\ value_at m' 2 = Some v
        /\ marker (plot m') = mkPoint v (icc2PL v a v)
        /\ icc2PL v a v = 1 / 2)
  /\ (family_state fam3PL m ->
      exists a c m', value_at m 1 = Some a /\ value_at m 3 = Some c
        /\ on_event fam3PL (Input 0 v) m = Some m'
        /\ value_at m' 0 = Some v /\ value_at m' 2 = Some v
        /\ marker (plot m') = mkPoint v (icc3PL v a v c)
        /\ icc3PL v a v c = (1 + c) / 2)
  /\ (family_state fam4PL m ->
      exists a c d m', value_at m 1 = Some a /\ value_at m 3 = Some c
        /\ value_at m 4 = Some d
        /\ on_event fam4PL (Input 0 v) m = Some m'
        /\ value_at m' 0 = Some v /\ value_at m' 2 = Some v
        /\ marker (plot m') = mkPoint v (icc4PL v a v c (Rmax d (c + 1e-6)))
        /\ icc4PL v a v c (Rmax d (c + 1e-6)) = (c + Rmax d (c + 1e-6)) / 2)
  /\ (forall (impl : float -> float) (fv fa fc fd : float),
        is_finite fv = true -> is_finite fa = true ->
        Binary64.icc1PL impl fv fv = 0.5%float
        /\ Binary64.icc2PL impl fv fa fv = 0.5%float
        /\ Binary64.icc3PL impl fv fa fv fc = (fc + (1 - fc) * 0.5)%float
        /\ Binary64.icc4PL impl fv fa fv fc (Binary64.clamp_d fc fd)
           = (fc + (Binary64.clamp_d fc fd - fc) * 0.5)%float)
  /\ (0.2 + (1 - 0.2) * 0.5)%float = 0.6000000000000001%float
  /\ PrimFloat.next_up 0.6%float = 0.6000000000000001%float.
Proof.
  intros Hlock Hv. pose proof (clamp_id (-3) 3 v Hv) as Hc.
  split; [| split; [| split; [| split; [| split]]]].
  - intros Hm.
    destruct (lock_1PL v m Hlock Hm) as (m' & Hev & HT & HB & Hpt & _).
    rewrite Hc in HB, Hpt. exists m'. repeat split; try assumption.
    unfold icc1PL. rewrite Rminus_diag. apply logistic_0.
  - intros Hm.
    destruct (lock_2PL v m Hlock Hm) as (a & m' & Ha & Hev & HT & _ & HB & Hpt & _).
    rewrite Hc in HB, Hpt. exists a, m'. repeat split; try assumption.
    unfold icc2PL. rewrite Rminus_diag, Rmult_0_r. apply logistic_0.
  - intros Hm.
    destruct (lock_3PL v m Hlock Hm)
      as (a & c & m' & Ha & Hcv & Hev & HT & _ & HB & _ & Hpt & _).
    rewrite Hc in HB, Hpt. exists a, c, m'. repeat split; try assumption.
    change (icc3PL v a v c) with (icc4PL v a v c 1).
    rewrite icc4PL_at_difficulty. lra.
  - intros Hm.
    destruct (lock_4PL v m Hlock Hm)
      as (a & c & d & m' & Ha & Hcv & Hdv & Hev & HT & _ & HB & _ & _ & Hpt & _).
    rewrite Hc in HB, Hpt. exists a, c, d, m'. repeat split; try assumption.
    apply icc4PL_at_difficulty.
  - intros impl fv fa fc fd Hfv Hfa.
    unfold Binary64.icc1PL, Binary64.icc2PL, Binary64.icc3PL, Binary64.icc4PL.
    rewrite (binary64_logistic_at_difficulty impl fa fv Hfa Hfv).
    rewrite (binary64_sub_diag fv Hfv). repeat split; reflexivity.
  - split; reflexivity.
Qed.

Lemma locked_point_rides_the_midline_witness :
  exists m',
    on_event fam1PL (Input 0 2)
      (mkModel (createSlider <$> params fam1PL) (Some true) createFigure) = Some m'
    /\ marker (plot m') = mkPoint 2 (icc1PL 2 2).
Proof.
  destruct (proj1 (locked_point_rides_the_midline 2
              (mkModel (createSlider <$> params fam1PL) (Some true) createFigure)
              eq_refl ltac:(lra)) eq_refl)
    as (m' & Hev & _ & _ & Hpt & _).
  now exists m'.
Defined.

(** With the lock checked the capturing listener of the ability control
    leaves the clamped ability in the difficulty control, written or found
    there. *)
Lemma onThetaCapture_synced (ti bi : nat) (m : model) (sT sB : slider) :
  lockCheckbox m = Some true ->
  sliderObjs m !! ti = Some sT -> sliderObjs m !! bi = Some sB ->
  input_value <$> sliderObjs (onThetaCapture ti bi m) !! bi
  = Some (clamp (input_min sB) (input_max sB) (input_value sT)).
Proof.
  intros Hl HT HB. unfold onThetaCapture. rewrite Hl, HT, HB. cbn zeta.
  fold (clamp (input_min sB) (input_max sB) (input_value sT)).
  destruct (Req_dec_T _ _) as [E|_].
  - rewrite HB. cbn. now rewrite E.
  - cbn [sliderObjs].
    rewrite list_lookup_insert_eq by (now apply lookup_lt_Some in HB). reflexivity.
Qed.

(** X15. Checking the lock, on each of the four pages, writes the ability,
    clamped to [[-3, 3]], into the difficulty control, leaves every other
    control as it is and redraws the chart from the new values; unchecking
    it changes nothing but the checkbox, and nothing is redrawn. *)
Theorem checking_the_lock_syncs_the_difficulty (fam : family) (m : model)
    (ti bi : nat) :
  fam ∈ families -> family_state fam m -> is_Some (lockCheckbox m) ->
  thetaSlider fam = Some ti -> bSlider fam = Some bi ->
  (exists theta m',
     value_at m ti = Some theta
     /\ on_event fam (Change true) m = Some m'
     /\ lockCheckbox m' = Some true
     /\ value_at m' bi = Some (clamp (-3) 3 theta)
     /\ (forall k, k <> bi -> sliderObjs m' !! k = sliderObjs m !! k)
     /\ computeCurve fam (getValues m') = Some (line_y (plot m'))
     /\ computePoint fam (getValues m') = Some (marker (plot m')))
  /\ on_event fam (Change false) m
     = Some (mkModel (sliderObjs m) (Some false) (plot m)).
Proof.
  intros Hfam Hm [l Hl] HT HB. split.
  - destruct (families_theta_b fam ti bi Hfam HT HB)
      as (_ & pT & pB & HpT & HpB & _ & _ & Hmin & Hmax).
    destruct (family_state_value fam m ti pT Hfam Hm HpT) as (sT & HsT & _).
    destruct (family_state_value fam m bi pB Hfam Hm HpB)
      as (sB & HsB & _ & HminB & HmaxB & _).
    set (m0 := mkModel (sliderObjs m) (Some true) (plot m)).
    set (m1 := onThetaCapture ti bi m0).
    assert (Hm1 : family_state fam m1).
    { unfold family_state, m1.
      rewrite (proj1 (onThetaCapture_attributes ti bi _)). exact Hm. }
    destruct (update_families_total fam m1 Hfam Hm1) as (m' & Hup & Hs & Hlk).
    destruct (update_plot fam m1 m' Hup) as (curveY & pt & Hc & Hp & Hplot).
    rewrite <- (getValues_sliders m1 m') in Hc, Hp by exact Hs.
    exists (input_value sT), m'. unfold value_at. rewrite HsT, Hs, Hplot.
    split; [reflexivity |]. split; [now rewrite (lock_checked fam ti bi HT HB m l) |].
    split; [rewrite Hlk; unfold m1;
            now rewrite (proj2 (onThetaCapture_attributes ti bi _)) |].
    split; [| split; [| split]]; try assumption.
    + unfold m1. rewrite (onThetaCapture_synced ti bi m0 sT sB) by done.
      now rewrite HminB, HmaxB, Hmin, Hmax.
    + intros k Hk. unfold m1. now rewrite onThetaCapture_other.
  - unfold on_event, onLockChange. rewrite Hl. reflexivity.
Qed.

Lemma checking_the_lock_syncs_the_difficulty_witness :
  on_event fam1PL (Change false)
    (mkModel (createSlider <$> params fam1PL) (Some true) createFigure)
  = Some (mkModel (createSlider <$> params fam1PL) (Some false) createFigure).
Proof.
  refine (proj2 (checking_the_lock_syncs_the_difficulty fam1PL
            (mkModel (createSlider <$> params fam1PL) (Some true) createFigure)
            0 1 fam1PL_family eq_refl _ eq_refl eq_refl)).
  now eexists.
Defined.
(** ** The curves on the chart *)

Lemma thetaGrid_sorted : StronglySorted Rlt thetaGrid.
Proof. apply fmap_seq_sorted. exact grid_point_lt. Qed.

Lemma StronglySorted_fmap_increasing (f : R -> R) (l : list R) :
  (forall x y, x < y -> f x < f y) ->
  StronglySorted Rlt l -> StronglySorted Rlt (f <$> l).
Proof.
  intros Hf. induction 1 as [|x l _ IH Hx]; cbn; constructor; [exact IH |].
  apply Forall_fmap. eapply Forall_impl; [exact Hx |]. intros y. apply Hf.
Qed.

(** A strictly increasing function with values strictly between [lo] and
    [hi], sampled on the grid. *)
Lemma curve_on_grid (f : R -> R) (lo hi : R) :
  (forall x y, x < y -> f x < f y) -> (forall x, lo < f x < hi) ->
  length (f <$> thetaGrid) = 400%nat
  /\ StronglySorted Rlt (f <$> thetaGrid)
  /\ Forall (fun y => lo < y < hi) (f <$> thetaGrid).
Proof.
  intros Hinc Hb. split; [| split].
  - rewrite length_fmap. apply Array_from_length.
  - apply StronglySorted_fmap_increasing; [exact Hinc | exact thetaGrid_sorted].
  - apply Forall_fmap, Forall_true. exact Hb.
Qed.

Lemma icc4PL_strictly_between (theta a b c d : R) :
  c < d -> c < icc4PL theta a b c d < d.
Proof.
  intros Hcd. unfold icc4PL.
  pose proof (logistic_pos (a * (theta - b))) as Hpos.
  pose proof (logistic_lt_1 (a * (theta - b))) as Hlt. nra.
Qed.

Lemma clamped_d_above_c (c d : R) : c < Rmax d (c + 1e-6).
Proof. apply Rlt_le_trans with (c + 1e-6); [lra | apply Rmax_r]. Qed.

(** X16. What the clamp of the upper asymptote is for.  Over the reals: on
    the 4PL page, whatever values the controls hold (the guessing floor may
    be above the upper asymptote), with a positive discrimination the curve
    that [update] draws is strictly increasing along the grid and lies
    strictly between the guessing floor and the clamped upper asymptote, and
    so does the point.  The doubles that the script computes keep the order
    only up to rounding: when the clamp leaves a gap of [1e-6] (at
    [c = 0.3], [d = 0.25]) and the curve is near its floor (at [a = 3],
    [b = 3]), the values at the grid points 1 and 2 are the same double
    0.3000000000000008, for every implementation of [Math.exp] that returns
    1241827130.1059597 and 1169332895.2217064 at the two exponents. *)
Theorem clamp_keeps_the_4PL_curve_increasing (m : model) (a : R) :
  family_state fam4PL m -> value_at m 1 = Some a -> 0 < a ->
  (exists c d m',
     value_at m 3 = Some c /\ value_at m 4 = Some d
     /\ update fam4PL m = Some m'
     /\ length (line_y (plot m')) = 400%nat
     /\ StronglySorted Rlt (line_y (plot m'))
     /\ Forall (fun y => c < y < Rmax d (c + 1e-6)) (line_y (plot m'))
     /\ c < point_y (marker (plot m')) < Rmax d (c + 1e-6))
  /\ forall impl : float -> float,
       impl 20.93984962406015%float = 1241827130.1059597%float ->
       impl 20.8796992481203%float = 1169332895.2217064%float ->
       let curve := (fun t => Binary64.icc4PL impl t 3 3 0.3
                                (Binary64.clamp_d 0.3 0.25))
                    <$> Binary64.thetaGrid in
       nth 1 curve 0%float = 0.3000000000000008%float
       /\ nth 2 curve 0%float = 0.3000000000000008%float
       /\ (nth 1 Binary64.thetaGrid 0 <? nth 2 Binary64.thetaGrid 0)%float = true.
Proof.
  intros Hm Ha Hpos. split.
  - destruct (update_4PL_clamps m Hm)
      as (theta & a' & b & c & d & m' & _ & Ha' & _ & Hc & Hd & Hup & Hpt & Hline).
    rewrite Ha in Ha'. injection Ha' as <-.
    pose proof (clamped_d_above_c c d) as Hcd.
    destruct (curve_on_grid (fun t => icc4PL t a b c (Rmax d (c + 1e-6)))
                c (Rmax d (c + 1e-6))) as (Hlen & Hsorted & Hall).
    { intros x y Hxy. now apply icc4PL_increasing. }
    { intros x. now apply icc4PL_strictly_between. }
    exists c, d, m'. rewrite Hline, Hpt. cbn [point_y].
    repeat split; try assumption; now apply icc4PL_strictly_between.
  - intros impl H1 H2. cbn zeta.
    assert (E1 : nth 1 ((fun t => Binary64.icc4PL impl t 3 3 0.3
                                    (Binary64.clamp_d 0.3 0.25))
                        <$> Binary64.thetaGrid) 0%float
                 = (0.3 + (0.30000099999999996 - 0.3)
                          * (1 / (1 + impl 20.93984962406015)))%float)
      by reflexivity.
    assert (E2 : nth 2 ((fun t => Binary64.icc4PL impl t 3 3 0.3
                                    (Binary64.clamp_d 0.3 0.25))
                        <$> Binary64.thetaGrid) 0%float
                 = (0.3 + (0.30000099999999996 - 0.3)
                          * (1 / (1 + impl 20.8796992481203)))%float)
      by reflexivity.
    rewrite E1, E2, H1, H2. repeat split; reflexivity.
Qed.

Lemma clamp_keeps_the_4PL_curve_increasing_witness :
  exists m',
    update fam4PL (mkModel (createSlider <$> params fam4PL) (Some false) createFigure)
    = Some m'
    /\ StronglySorted Rlt (line_y (plot m')).
Proof.
  destruct (proj1 (clamp_keeps_the_4PL_curve_increasing
              (mkModel (createSlider <$> params fam4PL) (Some false) createFigure)
              1 eq_refl eq_refl ltac:(lra)))
    as (c & d & m' & _ & _ & Hup & _ & Hs & _).
  now exists m'.
Defined.

(** The value a state holds at a position, within the range of the
    parameter when the controls are within their ranges. *)
Lemma family_value_in_range (fam : family) (m : model) (i : nat) (p : param) :
  fam ∈ families -> family_state fam m ->
  Forall (fun s => input_min s <= input_value s <= input_max s) (sliderObjs m) ->
  params fam !! i = Some p ->
  exists x, value_at m i = Some x /\ getValues m !! id p = Some x
            /\ min p <= x <= max p.
Proof.
  intros Hfam Hm Hr Hp.
  destruct (family_state_value fam m i p Hfam Hm Hp)
    as (s & Hs & _ & Hmin & Hmax & Hv).
  rewrite Forall_lookup in Hr. specialize (Hr i s Hs). cbn in Hr.
  exists (input_value s). unfold value_at. rewrite Hs, <- Hmin, <- Hmax.
  now repeat split.
Qed.

(** Lookups of keys whose values are known. *)
Ltac read_known H :=
  repeat match type of H with
         | context [?v !! ?k] =>
             match goal with E : v !! k = Some _ |- _ => rewrite E in H end
         end;
  cbn [mbind option_bind] in H.

(** X17. On each of the four pages, in every state that a browser
    reaches, the chart shows a probability curve: 400 values, one per point
    of the grid, strictly increasing and strictly between 0 and 1; the point
    is drawn at the value of the ability control, within [[-4, 4]], at a
    height strictly between 0 and 1, and the vertical line passes through
    it. *)
Theorem pages_draw_increasing_probabilities (fam : family) (m : model) :
  fam ∈ families -> visited fam m ->
  length (line_y (plot m)) = 400%nat
  /\ StronglySorted Rlt (line_y (plot m))
  /\ Forall (fun y => 0 < y < 1) (line_y (plot m))
  /\ 0 < point_y (marker (plot m)) < 1
  /\ value_at m 0 = Some (point_x (marker (plot m)))
  /\ -4 <= point_x (marker (plot m)) <= 4
  /\ shape_x0 (plot m) = point_x (marker (plot m))
  /\ shape_x1 (plot m) = point_x (marker (plot m)).
Proof.
  intros Hfam Hv.
  pose proof (visited_reachable fam m Hv) as Hr.
  pose proof (reachable_family_state fam m Hfam Hr) as Hm.
  pose proof (visited_in_range fam m (families_defaults fam Hfam) Hv) as Hin.
  destruct (update_plot fam m m (reachable_fresh fam m Hr))
    as (curveY & pt & Hc & Hp & Hplot).
  rewrite Hplot. cbn [line_y marker shape_x0 shape_x1].
  pose proof (fun i p => family_value_in_range fam m i p Hfam Hm Hin) as Hval.
  unfold families in Hfam. rewrite !elem_of_cons, elem_of_nil in Hfam.
  destruct Hfam as [-> | [-> | [-> | [-> | []]]]];
    cbn [computeCurve computePoint fam1PL fam2PL fam3PL fam4PL] in Hc, Hp.
  - destruct (Hval 0%nat _ eq_refl) as (theta & Ht & Hkt & Hrt).
    destruct (Hval 1%nat _ eq_refl) as (b & _ & Hkb & _).
    cbn [id min max] in *. read_known Hc. read_known Hp.
    apply (inj Some) in Hc, Hp. subst curveY pt. cbn [point_x point_y].
    destruct (curve_on_grid (fun t => icc1PL t b) 0 1) as (Hlen & Hs & Hall).
    { intros x y Hxy. unfold icc1PL. apply logistic_increasing. lra. }
    { intros x. split; [apply logistic_pos | apply logistic_lt_1]. }
    repeat split; try assumption; try lra;
      [apply logistic_pos | apply logistic_lt_1].
  - destruct (Hval 0%nat _ eq_refl) as (theta & Ht & Hkt & Hrt).
    destruct (Hval 1%nat _ eq_refl) as (a & _ & Hka & Hra).
    destruct (Hval 2%nat _ eq_refl) as (b & _ & Hkb & _).
    cbn [id min max] in *. read_known Hc. read_known Hp.
    apply (inj Some) in Hc, Hp. subst curveY pt. cbn [point_x point_y].
    destruct (curve_on_grid (fun t => icc2PL t a b) 0 1) as (Hlen & Hs & Hall).
    { intros x y Hxy. unfold icc2PL. apply logistic_increasing. nra. }
    { intros x. split; [apply logistic_pos | apply logistic_lt_1]. }
    repeat split; try assumption; try lra;
      [apply logistic_pos | apply logistic_lt_1].
  - destruct (Hval 0%nat _ eq_refl) as (theta & Ht & Hkt & Hrt).
    destruct (Hval 1%nat _ eq_refl) as (a & _ & Hka & Hra).
    destruct (Hval 2%nat _ eq_refl) as (b & _ & Hkb & _).
    destruct (Hval 3%nat _ eq_refl) as (c & _ & Hkc & Hrc).
    cbn [id min max] in *. read_known Hc. read_known Hp.
    apply (inj Some) in Hc, Hp. subst curveY pt. cbn [point_x point_y].
    assert (Hb : forall x, 0 < icc3PL x a b c < 1).
    { intros x. pose proof (icc4PL_strictly_between x a b c 1 ltac:(lra)) as H.
      change (icc4PL x a b c 1) with (icc3PL x a b c) in H. lra. }
    destruct (curve_on_grid (fun t => icc3PL t a b c) 0 1) as (Hlen & Hs & Hall).
    { intros x y Hxy. apply (icc4PL_increasing x y a b c 1); lra. }
    { exact Hb. }
    repeat split; try assumption; try lra; apply Hb.
  - destruct (Hval 0%nat _ eq_refl) as (theta & Ht & Hkt & Hrt).
    destruct (Hval 1%nat _ eq_refl) as (a & _ & Hka & Hra).
    destruct (Hval 2%nat _ eq_refl) as (b & _ & Hkb & _).
    destruct (Hval 3%nat _ eq_refl) as (c & _ & Hkc & Hrc).
    destruct (Hval 4%nat _ eq_refl) as (d & _ & Hkd & Hrd).
    cbn [id min max] in *. read_known Hc. read_known Hp. cbn zeta in Hc, Hp.
    rewrite (clamp_d_in_range c d Hrc Hrd) in Hc, Hp.
    apply (inj Some) in Hc, Hp. subst curveY pt. cbn [point_x point_y].
    assert (Hb : forall x, 0 < icc4PL x a b c d < 1).
    { intros x. pose proof (icc4PL_strictly_between x a b c d ltac:(lra)) as H. lra. }
    destruct (curve_on_grid (fun t => icc4PL t a b c d) 0 1) as (Hlen & Hs & Hall).
    { intros x y Hxy. apply icc4PL_increasing; lra. }
    { exact Hb. }
    repeat split; try assumption; try lra; apply Hb.
Qed.

Lemma pages_draw_increasing_probabilities_witness :
  exists m, setupModel fam4PL = Some m
    /\ StronglySorted Rlt (line_y (plot m))
    /\ Forall (fun y => 0 < y < 1) (line_y (plot m)).
Proof.
  destruct (families_visited fam4PL fam4PL_family) as (m & Hm & Hv & _).
  destruct (pages_draw_increasing_probabilities fam4PL m fam4PL_family Hv)
    as (_ & Hs & Hall & _).
  now exists m.
Defined.
(** ** The formulas of the page *)

Lemma render_lookup (katex : bool) (elId tex : string) (page : gmap string content)
    (i : string) :
  render katex elId tex page !! i
  = if decide (i = elId)
    then (fun _ => if katex then Typeset tex else Text tex) <$> page !! i
    else page !! i.
Proof.
  unfold render. cbn zeta.
  destruct (decide (i = elId)) as [-> | Hne].
  - destruct (page !! elId) as [old|] eqn:E.
    + rewrite bool_decide_eq_true_2 by eauto.
      destruct katex; cbn [andb]; now rewrite lookup_insert_eq.
    + rewrite bool_decide_eq_false_2 by (intros [? ?]; discriminate).
      cbn [andb]. now rewrite E.
  - destruct (bool_decide _), katex; cbn [andb];
      now rewrite ?lookup_insert_ne by done.
Qed.

Lemma renderEquations_lookup (katex : bool) (page : gmap string content) (i : string) :
  renderEquations katex page !! i
  = match page !! i with
    | None => None
    | Some old =>
        let formula tex := if katex then Typeset tex else Text tex in
        Some (if decide (i = "eq4PL")
              then formula "P(\theta)=c + (d-c)\,\tfrac{1}{1+e^{-a(\theta-b)}}"
              else if decide (i = "eq3PL")
              then formula "P(\theta)=c + (1-c)\,\tfrac{1}{1+e^{-a(\theta-b)}}"
              else if decide (i = "eq2PL")
              then formula "P(\theta)=\tfrac{1}{1+e^{-a(\theta-b)}}"
              else if decide (i = "eq1PL")
              then formula "P(\theta)=\tfrac{1}{1+e^{-(\theta-b)}}"
              else old)
    end.
Proof.
  unfold renderEquations. cbn zeta. rewrite !render_lookup.
  destruct (page !! i) as [old|]; repeat case_decide; reflexivity.
Qed.

(** X18. The [DOMContentLoaded] listener writes the formula of each family
    into its element, typeset when KaTeX is loaded and as the plain TeX
    source when it is not; an element that the page does not have is skipped
    (none is created), every other element is left as it is, and a second
    run changes nothing. *)
Theorem renderEquations_fills_the_elements (katex : bool)
    (page : gmap string content) :
  (forall i, page !! i = None -> renderEquations katex page !! i = None)
  /\ (forall i, i ∉ ["eq1PL"; "eq2PL"; "eq3PL"; "eq4PL"] ->
        renderEquations katex page !! i = page !! i)
  /\ (is_Some (page !! "eq1PL") ->
      renderEquations katex page !! "eq1PL"
      = Some (if katex
              then Typeset "P(\theta)=\tfrac{1}{1+e^{-(\theta-b)}}"
              else Text "P(\theta)=\tfrac{1}{1+e^{-(\theta-b)}}"))
  /\ (is_Some (page !! "eq2PL") ->
      renderEquations katex page !! "eq2PL"
      = Some (if katex
              then Typeset "P(\theta)=\tfrac{1}{1+e^{-a(\theta-b)}}"
              else Text "P(\theta)=\tfrac{1}{1+e^{-a(\theta-b)}}"))
  /\ (is_Some (page !! "eq3PL") ->
      renderEquations katex page !! "eq3PL"
      = Some (if katex
              then Typeset "P(\theta)=c + (1-c)\,\tfrac{1}{1+e^{-a(\theta-b)}}"
              else Text "P(\theta)=c + (1-c)\,\tfrac{1}{1+e^{-a(\theta-b)}}"))
  /\ (is_Some (page !! "eq4PL") ->
      renderEquations katex page !! "eq4PL"
      = Some (if katex
              then Typeset "P(\theta)=c + (d-c)\,\tfrac{1}{1+e^{-a(\theta-b)}}"
              else Text "P(\theta)=c + (d-c)\,\tfrac{1}{1+e^{-a(\theta-b)}}"))
  /\ renderEquations katex (renderEquations katex page)
     = renderEquations katex page.
Proof.
  split; [| split; [| split; [| split; [| split; [| split]]]]].
  - intros i Hi. now rewrite renderEquations_lookup, Hi.
  - intros i Hi. rewrite !not_elem_of_cons in Hi.
    destruct Hi as (H1 & H2 & H3 & H4 & _).
    rewrite renderEquations_lookup. destruct (page !! i); [| reflexivity].
    cbn zeta. now rewrite !decide_False by done.
  - intros [old E]. now rewrite renderEquations_lookup, E.
  - intros [old E]. now rewrite renderEquations_lookup, E.
  - intros [old E]. now rewrite renderEquations_lookup, E.
  - intros [old E]. now rewrite renderEquations_lookup, E.
  - apply map_eq. intros i. rewrite (renderEquations_lookup _ (renderEquations _ _)).
    rewrite renderEquations_lookup. destruct (page !! i); [| reflexivity].
    cbn zeta. repeat case_decide; reflexivity.
Qed.

(** ** The clamp of the upper asymptote in binary64 *)

Lemma SFcompare_antisym (x y : spec_float) (c : comparison) :
  SpecFloat.SFcompare x y = Some c -> SpecFloat.SFcompare y x = Some (CompOpp c).
Proof.
  destruct x as [sx | sx | | sx mx ex], y as [sy | sy | | sy my ey];
    cbn [SpecFloat.SFcompare]; try discriminate;
    try (intros H; injection H as <-; now destruct sx, sy).
  intros H. injection H as <-.
  change (PosDef.Pos.compare_cont Eq my mx) with (my ?= mx)%positive.
  change (PosDef.Pos.compare_cont Eq mx my) with (mx ?= my)%positive.
  rewrite (Z.compare_antisym ex ey), (Pos.compare_antisym mx my).
  destruct sx, sy; try reflexivity;
    destruct (ex ?= ey)%Z; try reflexivity;
    destruct (mx ?= my)%positive; reflexivity.
Qed.

Lemma not_nan_compare (x y : float) :
  is_nan x = false -> is_nan y = false ->
  exists c, SpecFloat.SFcompare (Prim2SF x) (Prim2SF y) = Some c.
Proof.
  unfold is_nan. rewrite !FloatAxioms.eqb_spec. unfold SpecFloat.SFeqb.
  destruct (Prim2SF x) as [sx | sx | | sx mx ex];
    destruct (Prim2SF y) as [sy | sy | | sy my ey];
    cbn [SpecFloat.SFcompare negb]; try discriminate; intros _ _; eauto.
Qed.

Lemma binary64_leb_refl (x : float) : is_nan x = false -> (x <=? x)%float = true.
Proof.
  unfold is_nan. rewrite FloatAxioms.eqb_spec, leb_spec.
  unfold SpecFloat.SFeqb, SpecFloat.SFleb.
  now destruct (SpecFloat.SFcompare _ _) as [[| |]|].
Qed.

Lemma binary64_ltb_leb (x y : float) :
  (x <? y)%float = true -> (x <=? y)%float = true.
Proof.
  rewrite ltb_spec, leb_spec. unfold SpecFloat.SFltb, SpecFloat.SFleb.
  now destruct (SpecFloat.SFcompare _ _) as [[| |]|].
Qed.

(** Two numbers neither of which is below the other compare as equal. *)
Lemma binary64_leb_total (x y : float) :
  is_nan x = false -> is_nan y = false ->
  (x <? y)%float = false -> (y <? x)%float = false ->
  (x <=? y)%float = true /\ (y <=? x)%float = true.
Proof.
  intros Hx Hy. destruct (not_nan_compare x y Hx Hy) as [c Hc].
  pose proof (SFcompare_antisym _ _ _ Hc) as Hc'.
  rewrite !ltb_spec, !leb_spec. unfold SpecFloat.SFltb, SpecFloat.SFleb.
  rewrite Hc, Hc'. now destruct c.
Qed.

Lemma Math_max_spec (x y : float) :
  is_nan x = false -> is_nan y = false ->
  (Binary64.Math_max x y = x \/ Binary64.Math_max x y = y)
  /\ (x <=? Binary64.Math_max x y)%float = true
  /\ (y <=? Binary64.Math_max x y)%float = true.
Proof.
  intros Hx Hy. unfold Binary64.Math_max. rewrite Hx, Hy. cbn [orb].
  destruct (x <? y)%float eqn:Hxy.
  - split; [now right |]. split; [now apply binary64_ltb_leb | now apply binary64_leb_refl].
  - destruct (y <? x)%float eqn:Hyx.
    + split; [now left |].
      split; [now apply binary64_leb_refl | now apply binary64_ltb_leb].
    + destruct (binary64_leb_total x y Hx Hy Hxy Hyx) as [H1 H2].
      destruct (get_sign x).
      * split; [now right |]. split; [exact H1 | now apply binary64_leb_refl].
      * split; [now left |]. split; [now apply binary64_leb_refl | exact H2].
Qed.

(** X19. In binary64 the clamp of the 4PL callbacks,
    [Math.max(d, c + 1e-6)], is one of its two arguments and is below
    neither of them, whenever neither is NaN; a NaN in [d] or in [c] makes
    it NaN, and the curve with it. *)
Theorem clamp_d_binary64 (c d : float) :
  (is_nan d = false -> is_nan (c + 1e-6)%float = false ->
   (Binary64.clamp_d c d = d \/ Binary64.clamp_d c d = (c + 1e-6)%float)
   /\ (d <=? Binary64.clamp_d c d)%float = true
   /\ (c + 1e-6 <=? Binary64.clamp_d c d)%float = true)
  /\ Binary64.clamp_d nan d = nan
  /\ Binary64.clamp_d c nan = nan
  /\ forall (impl : float -> float) (theta a b : float),
       Binary64.icc4PL impl theta a b c (Binary64.clamp_d c nan) = nan.
Proof.
  split; [| split; [| split]].
  - intros Hd Hc. now apply Math_max_spec.
  - unfold Binary64.clamp_d, Binary64.Math_max.
    rewrite binary64_add_nan_l. now rewrite orb_true_r.
  - reflexivity.
  - intros impl theta a b. change (Binary64.clamp_d c nan) with nan.
    unfold Binary64.icc4PL.
    now rewrite binary64_sub_nan_l, binary64_mul_nan_l, binary64_add_nan_r.
Qed.
(** ** The keys that the callbacks read *)

Lemma families_callbacks_keys (fam : family) (v : gmap string R) :
  fam ∈ families ->
  (is_Some (computePoint fam v)
   <-> Forall (fun p => is_Some (v !! id p)) (params fam))
  /\ (is_Some (computeCurve fam v)
      <-> Forall (fun p => is_Some (v !! id p)) (drop 1 (params fam))).
Proof.
  unfold families. rewrite !elem_of_cons, elem_of_nil.
  intros [-> | [-> | [-> | [-> | []]]]];
    cbn [computeCurve computePoint fam1PL fam2PL fam3PL fam4PL params drop];
    rewrite !Forall_cons, !Forall_nil; cbn [id];
    (split; (split;
     [ intros [y H]; read_keys H; repeat split; eauto
     | intros H; repeat match goal with
                        | H : _ /\ _ |- _ => destruct H
                        | H : is_Some _ |- _ => destruct H as [? ->]
                        end;
       cbn [mbind option_bind]; eauto ])).
Qed.

(** An event on a control of a family ends in a state of the family. *)
Lemma on_event_total (fam : family) (ev : event) (m : model) :
  fam ∈ families -> family_state fam m ->
  match ev with
  | Input k _ => (k < length (params fam))%nat
  | Change _ => is_Some (lockCheckbox m)
  end ->
  is_Some (on_event fam ev m).
Proof.
  intros Hfam Hm Hev. destruct ev as [k v | checked].
  - apply lookup_lt_is_Some in Hev as [p Hp].
    destruct (family_state_lookup fam m k p Hm Hp) as (s & Hk & _).
    destruct (on_event_input fam k v m s Hk) as (m1 & E & Hm1).
    rewrite E. unfold onInput. cbn zeta in Hm1.
    assert (Hm1' : attributes <$> sliderObjs m1 = attributes <$> sliderObjs m).
    { assert (H0 : attributes <$> <[k := set_value v s]> (sliderObjs m)
                   = attributes <$> sliderObjs m).
      { rewrite list_fmap_insert. apply list_insert_id.
        now rewrite list_lookup_fmap, Hk. }
      destruct Hm1 as [-> | (ti & bi & _ & _ & _ & [[_ ->] | [_ ->]])].
      - exact H0.
      - now rewrite (proj1 (onThetaCapture_attributes ti bi _)).
      - now rewrite (proj1 (onBCapture_attributes ti bi _)). }
    destruct (update_families_total fam
                (mkModel (alter (fun s => set_textContent (input_value s) s) k
                            (sliderObjs m1))
                         (lockCheckbox m1) (plot m1)) Hfam) as (m' & Hup & _).
    { unfold family_state in *. cbn [sliderObjs].
      rewrite alter_attributes by reflexivity. now rewrite Hm1'. }
    now exists m'.
  - destruct Hev as [l Hl]. cbn [on_event]. rewrite Hl.
    unfold onLockChange. cbn [lockCheckbox].
    destruct checked; [| now eexists].
    destruct (thetaSlider fam) as [ti|]; [| now eexists].
    destruct (bSlider fam) as [bi|]; [| now eexists].
    destruct (update_families_total fam
                (onThetaCapture ti bi (mkModel (sliderObjs m) (Some true) (plot m)))
                Hfam) as (m' & Hup & _).
    { unfold family_state in *.
      now rewrite (proj1 (onThetaCapture_attributes ti bi _)). }
    now exists m'.
Qed.

(** X20. The callbacks of the four families read the keys of their own
    controls and no others: [computePoint] has a result exactly when the
    value map has the identifier of every parameter of the family, and
    [computeCurve] exactly when it has all of them but the first, the
    ability.  So on a page no callback ever reads a missing key: [update],
    every [input] event of a control and every [change] event of the lock
    come to an end with a chart of numbers. *)
Theorem callbacks_read_their_own_keys (fam : family) (v : gmap string R)
    (m : model) :
  fam ∈ families ->
  (is_Some (computePoint fam v)
   <-> Forall (fun p => is_Some (v !! id p)) (params fam))
  /\ (is_Some (computeCurve fam v)
      <-> Forall (fun p => is_Some (v !! id p)) (drop 1 (params fam)))
  /\ (family_state fam m ->
      is_Some (update fam m)
      /\ (forall k x, (k < length (params fam))%nat ->
            is_Some (on_event fam (Input k x) m))
      /\ (is_Some (lockCheckbox m) ->
          forall checked, is_Some (on_event fam (Change checked) m))).
Proof.
  intros Hfam. destruct (families_callbacks_keys fam v Hfam) as [Hp Hc].
  split; [exact Hp |]. split; [exact Hc |]. intros Hm. split; [| split].
  - destruct (update_families_total fam m Hfam Hm) as (m' & Hup & _). now exists m'.
  - intros k x Hk. now apply (on_event_total fam (Input k x) m).
  - intros Hl checked. now apply (on_event_total fam (Change checked) m).
Qed.

Lemma callbacks_read_their_own_keys_witness :
  is_Some (computeCurve fam1PL (<["b1PL" := 0]> ∅))
  /\ ~ is_Some (computePoint fam1PL (<["b1PL" := 0]> ∅)).
Proof.
  pose proof (callbacks_read_their_own_keys fam1PL (<["b1PL" := 0]> ∅)
                (mkModel [] None createFigure) fam1PL_family) as (Hp & Hc & _).
  split.
  - apply Hc. cbn [params fam1PL drop]. repeat constructor.
    cbn [id]. rewrite lookup_insert_eq. now eexists.
  - intros H. apply Hp in H. cbn [params fam1PL] in H.
    apply Forall_cons in H as [[x Hx] _]. cbn [id] in Hx.
    rewrite lookup_insert_ne, lookup_empty in Hx; discriminate.
Defined.

(** ** Moving the ability *)

Lemma computeCurve_ignores_ability (fam : family) (v : gmap string R) (x : R)
    (pT : param) :
  fam ∈ families -> params fam !! 0%nat = Some pT ->
  computeCurve fam (<[id pT := x]> v) = computeCurve fam v.
Proof.
  unfold families. rewrite !elem_of_cons, elem_of_nil.
  intros [-> | [-> | [-> | [-> | []]]]] HpT; injection HpT as <-;
    cbn [computeCurve fam1PL fam2PL fam3PL fam4PL id];
    now rewrite !lookup_insert_ne by discriminate.
Qed.

(** X21. The curve does not depend on the ability: on each of the four
    pages, with the lock unchecked, moving the ability control moves the
    point and the vertical line to the new ability and leaves the curve on
    the chart as it is. *)
Theorem moving_the_ability_keeps_the_curve (fam : family) (m m' : model) (v : R) :
  fam ∈ families -> reachable fam m -> lockCheckbox m <> Some true ->
  on_event fam (Input 0 v) m = Some m' ->
  line_y (plot m') = line_y (plot m)
  /\ point_x (marker (plot m')) = v
  /\ shape_x0 (plot m') = v /\ shape_x1 (plot m') = v.
Proof.
  intros Hfam Hr Hl Hev.
  pose proof (reachable_family_state fam m Hfam Hr) as Hm.
  destruct (update_plot fam m m (reachable_fresh fam m Hr))
    as (curveY & pt & Hc & _ & Hplot).
  assert (HpT : exists pT, params fam !! 0%nat = Some pT).
  { unfold families in Hfam. rewrite !elem_of_cons, elem_of_nil in Hfam.
    destruct Hfam as [-> | [-> | [-> | [-> | []]]]]; now eexists. }
  destruct HpT as [pT HpT].
  destruct (family_state_value fam m 0 pT Hfam Hm HpT) as (s & Hs & Hid & _).
  rewrite (input_without_sync fam 0 v m s) in Hev by (done || tauto).
  destruct (update_plot fam _ m' Hev) as (curveY' & pt' & Hc' & Hp' & Hplot').
  assert (Hvals : getValues (mkModel (<[0%nat := set_textContent v (set_value v s)]>
                                        (sliderObjs m))
                                     (lockCheckbox m) (plot m))
                  = <[id pT := v]> (getValues m)).
  { destruct m as [sl l p]. cbn [sliderObjs lockCheckbox plot] in *.
    rewrite <- (assign_insert (id pT))
      by exact (families_plain_ids fam 0 pT Hfam HpT).
    rewrite <- Hid.
    apply (getValues_insert sl 0 s (set_textContent v (set_value v s)));
      [| exact Hs | reflexivity].
    now apply (family_state_NoDup fam (mkModel sl l p)). }
  rewrite Hvals in Hc', Hp'.
  rewrite (computeCurve_ignores_ability fam _ v pT Hfam HpT), Hc in Hc'.
  injection Hc' as <-.
  destruct (families_point_x fam _ pt' Hfam Hp') as (pT' & HpT' & Hx).
  rewrite HpT in HpT'. injection HpT' as <-.
  rewrite lookup_insert_eq in Hx. injection Hx as Hx.
  rewrite Hplot, Hplot'. cbn [line_y marker shape_x0 shape_x1]. now rewrite <- Hx.
Qed.

Lemma moving_the_ability_keeps_the_curve_witness :
  exists m m',
    setupModel fam1PL = Some m /\ on_event fam1PL (Input 0 1) m = Some m'
    /\ line_y (plot m') = line_y (plot m).
Proof.
  destruct (setupModel_families fam1PL fam1PL_family) as (m & Hm & Hst & Hlock).
  destruct (on_event_total fam1PL (Input 0 1) m fam1PL_family Hst) as [m' Hev];
    [cbn; lia |].
  exists m, m'. split; [exact Hm |]. split; [exact Hev |].
  apply (moving_the_ability_keeps_the_curve fam1PL m m' 1 fam1PL_family);
    [now apply reach_setup | congruence | exact Hev].
Defined.
(** ** What an event leaves alone *)

Lemma reachable_attributes (fam : family) (m : model) :
  reachable fam m -> family_state fam m.
Proof.
  induction 1 as [m Hm | m ev m' _ IH Hev].
  - apply setupModel_controls in Hm as [Hs _]. unfold family_state. now rewrite Hs.
  - now apply (on_event_family_state fam ev m).
Qed.

(** A control that is not the control of the event, nor the ability or the
    difficulty control, is left as it is. *)
Lemma on_event_other_controls (fam : family) (ev : event) (m m' : model) (j : nat) :
  on_event fam ev m = Some m' ->
  (forall v, ev <> Input j v) ->
  thetaSlider fam <> Some j -> bSlider fam <> Some j ->
  sliderObjs m' !! j = sliderObjs m !! j.
Proof.
  intros Hev Hj HjT HjB. destruct ev as [k v | checked].
  - assert (Hjk : j <> k) by (intros ->; now apply (Hj v)).
    assert (Hk : is_Some (sliderObjs m !! k)).
    { cbn [on_event] in Hev. destruct (sliderObjs m !! k); [done | discriminate]. }
    destruct Hk as [sk Hk].
    destruct (on_event_input fam k v m sk Hk) as (m1 & E & Hm1).
    rewrite E in Hev. unfold onInput in Hev.
    apply update_controls in Hev as [-> _]. cbn [sliderObjs].
    rewrite list_lookup_alter_ne by done. cbn zeta in Hm1.
    destruct Hm1 as [-> | (ti & bi & HT & HB & _ & [[_ ->] | [_ ->]])].
    + cbn [sliderObjs]. now apply list_lookup_insert_ne.
    + rewrite onThetaCapture_other by congruence.
      cbn [sliderObjs]. now apply list_lookup_insert_ne.
    + rewrite onBCapture_other by congruence.
      cbn [sliderObjs]. now apply list_lookup_insert_ne.
  - cbn [on_event] in Hev. destruct (lockCheckbox m) as [l|]; [| discriminate].
    unfold onLockChange in Hev. cbn [lockCheckbox] in Hev.
    destruct checked; [| now injection Hev as <-].
    destruct (thetaSlider fam) as [ti|]; [| now injection Hev as <-].
    destruct (bSlider fam) as [bi|] eqn:HB; [| now injection Hev as <-].
    apply update_controls in Hev as [-> _].
    now rewrite onThetaCapture_other by congruence.
Qed.

(** X22. The controls of a page keep what they were created with: in every
    state of a page, of any family, there is one control per parameter, in
    the order of the parameters, with the identifier, the range and the step
    of its parameter.  An event changes no control but the one it is about,
    the ability control and the difficulty control. *)
Theorem controls_keep_their_attributes (fam : family) (m : model) :
  reachable fam m ->
  attributes <$> sliderObjs m = attributes <$> (createSlider <$> params fam)
  /\ length (sliderObjs m) = length (params fam)
  /\ forall ev m' j,
       on_event fam ev m = Some m' ->
       (forall v, ev <> Input j v) ->
       thetaSlider fam <> Some j -> bSlider fam <> Some j ->
       sliderObjs m' !! j = sliderObjs m !! j.
Proof.
  intros Hr. pose proof (reachable_attributes fam m Hr) as Hm.
  split; [exact Hm |]. split.
  - apply (f_equal length) in Hm. now rewrite !length_fmap in Hm.
  - intros ev m' j. apply on_event_other_controls.
Qed.

Lemma controls_keep_their_attributes_witness :
  exists m, setupModel fam4PL = Some m /\ length (sliderObjs m) = 5%nat.
Proof.
  destruct (families_visited fam4PL fam4PL_family) as (m & Hm & _ & Hr).
  exists m. split; [exact Hm |].
  exact (proj1 (proj2 (controls_keep_their_attributes fam4PL m Hr))).
Defined.

(** ** What each parameter does to the curve *)

(** X23. What each parameter does to a curve with a positive
    discrimination and the asymptotes in order: a larger difficulty lowers
    the probability at every ability; a larger discrimination raises it
    above the difficulty and lowers it below; a larger guessing floor and a
    larger upper asymptote each raise it at every ability. *)
Theorem parameters_move_the_curve (theta a b c d x : R) :
  (b < x -> icc1PL theta x < icc1PL theta b)
  /\ (0 < a -> c < d -> b < x -> icc4PL theta a x c d < icc4PL theta a b c d)
  /\ (c < d -> a < x -> b < theta -> icc4PL theta a b c d < icc4PL theta x b c d)
  /\ (c < d -> a < x -> theta < b -> icc4PL theta x b c d < icc4PL theta a b c d)
  /\ (c < x -> icc4PL theta a b c d < icc4PL theta a b x d)
  /\ (d < x -> icc4PL theta a b c d < icc4PL theta a b c x).
Proof.
  unfold icc1PL, icc4PL.
  pose proof (logistic_pos (a * (theta - b))) as Hpos.
  pose proof (logistic_lt_1 (a * (theta - b))) as Hlt.
  split; [| split; [| split; [| split; [| split]]]].
  - intros Hb. apply logistic_increasing. lra.
  - intros Ha Hcd Hb.
    assert (H : logistic (a * (theta - x)) < logistic (a * (theta - b)))
      by (apply logistic_increasing; nra).
    nra.
  - intros Hcd Ha Ht.
    assert (H : logistic (a * (theta - b)) < logistic (x * (theta - b)))
      by (apply logistic_increasing; nra).
    nra.
  - intros Hcd Ha Ht.
    assert (H : logistic (x * (theta - b)) < logistic (a * (theta - b)))
      by (apply logistic_increasing; nra).
    nra.
  - intros Hc. nra.
  - intros Hd. nra.
Qed.

(** ** The curve and the point *)

Lemma Forall2_fmap_graph {A B : Type} (P : A -> B -> Prop) (f : A -> B) (l : list A) :
  (forall x, P x (f x)) -> Forall2 P l (f <$> l).
Proof. intros H. induction l; cbn; constructor; auto. Qed.

(** X24. The two callbacks of a page agree: the curve is the locus of the
    point.  On each of the four pages, for every value map from which the
    point can be computed, the value of the curve at a point [t] of the grid
    is the height at which the point is drawn when the ability is [t] and
    every other value is the same (on the 4PL page both callbacks clamp the
    upper asymptote in the same way). *)
Theorem curve_is_the_locus_of_the_point (fam : family) (v : gmap string R)
    (pT : param) :
  fam ∈ families -> params fam !! 0%nat = Some pT ->
  is_Some (computePoint fam v) ->
  exists ys,
    computeCurve fam v = Some ys
    /\ Forall2 (fun t y => computePoint fam (<[id pT := t]> v) = Some (mkPoint t y))
               thetaGrid ys.
Proof.
  unfold families. rewrite !elem_of_cons, elem_of_nil.
  intros [-> | [-> | [-> | [-> | []]]]] HpT [pt Hp]; injection HpT as <-;
    cbn [computeCurve computePoint fam1PL fam2PL fam3PL fam4PL id] in *;
    read_keys Hp; eexists; (split; [reflexivity |]);
    apply Forall2_fmap_graph; intros t;
    rewrite lookup_insert_eq, !lookup_insert_ne by discriminate;
    repeat match goal with E : v !! _ = Some _ |- _ => rewrite E; clear E end;
    reflexivity.
Qed.

Lemma curve_is_the_locus_of_the_point_witness :
  exists ys,
    computeCurve fam1PL (<["theta1PL" := 0]> (<["b1PL" := 0]> ∅)) = Some ys
    /\ length ys = 400%nat.
Proof.
  destruct (curve_is_the_locus_of_the_point fam1PL
              (<["theta1PL" := 0]> (<["b1PL" := 0]> ∅))
              (mkParam "theta1PL" "θ (ability)" (-4) 4 0.1 0)
              fam1PL_family eq_refl) as (ys & Hys & Hall).
  { cbn [computePoint fam1PL]. read_values. now eexists. }
  exists ys. split; [exact Hys |].
  apply Forall2_length in Hall. rewrite <- Hall. apply Array_from_length.
Defined.
(** ** The clamp of the lock *)

(** X25. [Math.max(lo, Math.min(hi, v))], with which the lock listeners
    fit a value into the range of the partner control, projects onto the
    range: with [lo <= hi] the result lies in [[lo, hi]], it is [v] exactly
    when [v] lies there, the lower bound for a smaller [v] and the upper
    bound for a larger one; clamping twice is clamping once; and with the
    bounds in the wrong order the result is always [lo]. *)
Theorem clamp_projects_onto_the_range (lo hi v : R) :
  (lo <= hi -> lo <= clamp lo hi v <= hi)
  /\ (lo <= hi -> (clamp lo hi v = v <-> lo <= v <= hi))
  /\ (lo <= hi -> v <= lo -> clamp lo hi v = lo)
  /\ (lo <= hi -> hi <= v -> clamp lo hi v = hi)
  /\ clamp lo hi (clamp lo hi v) = clamp lo hi v
  /\ (hi < lo -> clamp lo hi v = lo).
Proof.
  unfold clamp, Rmax, Rmin.
  repeat split; intros; repeat destruct (Rle_dec _ _); lra.
Qed.
